(** * SBOS server with shadow guards: capability resolution, rate limiting,
      validator chains and the write pipeline

    A shallow embedding of [extended_implementation/sbos_server_shadow.py].

    - Python dictionaries are finite maps ([gmap]); the rows of a SQLite
      table are a list in insertion (rowid) order.
    - Python floats and JSON numbers are exact rationals ([Q]).
    - A handler is a computation over the process-wide state ([World]) that
      either returns a value or raises ([HTTPException], [KeyError]); state
      changes made before a raise stay in place, as in Python.
    - The Brick graph, the wall clock, Jinja2's template rendering and
      Python's formatting of a number are outside the program: the graph is a
      field of the state (it is replaced on reload), the other three are
      variables of the section. *)

From Stdlib Require Import QArith Qabs Qround ZArith Lia Ascii String.
From Stdlib Require Import Sorting.Sorted Sorting.Permutation.
From stdpp Require Import gmap strings list fin_maps pretty.

Local Open Scope string_scope.
Local Open Scope list_scope.
Local Open Scope Z_scope.

(** ** Strings *)

Module Str.

Definition dquote : string := String (ascii_of_nat 34) EmptyString.

(** [needle in s] *)
Fixpoint contains (needle s : string) : bool :=
  if String.prefix needle s then true
  else match s with
       | EmptyString => false
       | String _ rest => contains needle rest
       end.

(** The last piece of [s.split(sep)] for a one-character separator:
    [acc] is the piece being read. *)
Fixpoint last_piece (sep : ascii) (acc s : string) : string :=
  match s with
  | EmptyString => acc
  | String c rest =>
      if Ascii.eqb c sep then last_piece sep EmptyString rest
      else last_piece sep (acc +:+ String c EmptyString) rest
  end.

(** [cls.split("#")[-1] if "#" in cls else cls] *)
Definition local_name (cls : string) : string :=
  if contains "#" cls then last_piece "#"%char EmptyString cls else cls.

End Str.

(** ** Numbers *)

Module Num.

Definition ltb (x y : Q) : bool := negb (Qle_bool y x).
Definition gtb (x y : Q) : bool := ltb y x.

(** Python's [int(x)] on a float: truncation towards zero. *)
Definition py_int (x : Q) : Z := Z.quot (Qnum x) (Z.pos (Qden x)).

(** [int(now // 60)] *)
Definition minute_of (now : Q) : Z := Qfloor (now / 60).

End Num.

(** ** Exceptions and results *)

Inductive exn : Type :=
| HTTPException (status_code : Z) (detail : string)
| KeyError (key : string).

Inductive result (A : Type) : Type :=
| Return (a : A)
| Raise (e : exn).
Arguments Return {A} a.
Arguments Raise {A} e.

(** ** Data model *)

(** A result row of a SPARQL SELECT: the binding of each variable. *)
Definition Row : Type := string -> string.

(** The loaded Brick graph, seen through [G.query]. *)
Record Graph : Type := { query : string -> list Row }.

Record Manifest : Type := {
  app_id : string;
  profile : string;
  args : gmap string string;
  delegation : string;
  write_rate_limit_per_min : Z;
  permissions : gmap string bool;
  user : string
}.

(** One entry of [pf["args"]]: the optional ["type"] of the argument. *)
Record ArgMeta : Type := { arg_type : option string }.

(** [PROFILES["profiles"][name]]; [pf_args] keeps the order of the YAML
    mapping, which is the order the loop of [render_profile] follows. *)
Record Profile : Type := {
  pf_args : list (string * ArgMeta);
  sparql : string
}.

(** [POLICY["guards"][local]] *)
Record Guard : Type := { g_min : Q; g_max : Q; g_max_step : Q }.

Record Policy : Type := { guards : gmap string Guard }.

(** [caps["read"]] and [caps["write"]] *)
Record Caps : Type := { cap_read : list string; cap_write : list string }.

Record Bucket : Type := { limit : Z; tokens : Z; win : Z }.

(** An entry of [APPS]; ["rate"] may be absent, [token_bucket_ok] then
    creates it with [setdefault]. *)
Record Instance : Type := {
  manifest : Manifest;
  pid : Z;
  key : string;
  caps : Caps;
  inst_user : string;
  rate : option Bucket
}.

(** Rows of the tables of [sbos.db]. *)
Record TxRow : Type := {
  tx_ts : Q; tx_actor : string; tx_app_id : string; tx_user_id : string;
  tx_action : string; tx_point_iri : string; tx_point_label : string;
  tx_value : option Q; tx_decision : string; tx_reason : string
}.

Record VRow : Type := { resource_class : string; position : Z; vtype : string }.

Record TsRow : Type := { ts_ts : Q; ts_point_label : string; ts_value : Q }.

Record ShadowRow : Type := {
  sh_ts : Q; sh_app_id : string; sh_user_id : string; sh_point_iri : string;
  sh_point_label : string; sh_value : Q; sh_cls : string; sh_vtype : string;
  sh_reason : string
}.

Record Db : Type := {
  txlog : list TxRow;
  constraints : gmap string Q;
  validators : list VRow;
  shadow_validators : list VRow;
  timeseries : list TsRow;
  shadowlog : list ShadowRow
}.

(** The globals of the module, and the number of clock readings made so
    far. *)
Record World : Type := {
  G : Graph;
  PROFILES : gmap string Profile;
  POLICY : Policy;
  USERS : gmap string (gmap string string);
  IRI2LABEL : gmap string string;
  LABEL2IRI : gmap string string;
  APPS : gmap string Instance;
  APP_KEYS : gmap string string;
  STATE : gmap string Q;
  DB : Db;
  ticks : nat
}.

Record WriteReq : Type := {
  point_label : string;
  value : Q;
  prev_value : option Q
}.

(** The body of a successful [/write] response. *)
Record WriteResp : Type := { resp_ok : bool; resp_point : string; resp_value : Q }.

(** ** Field updates *)

Definition with_APPS (apps : gmap string Instance) (w : World) : World :=
  {| G := G w; PROFILES := PROFILES w; POLICY := POLICY w; USERS := USERS w;
     IRI2LABEL := IRI2LABEL w; LABEL2IRI := LABEL2IRI w; APPS := apps;
     APP_KEYS := APP_KEYS w; STATE := STATE w; DB := DB w; ticks := ticks w |}.

Definition with_STATE (st : gmap string Q) (w : World) : World :=
  {| G := G w; PROFILES := PROFILES w; POLICY := POLICY w; USERS := USERS w;
     IRI2LABEL := IRI2LABEL w; LABEL2IRI := LABEL2IRI w; APPS := APPS w;
     APP_KEYS := APP_KEYS w; STATE := st; DB := DB w; ticks := ticks w |}.

Definition with_DB (db : Db) (w : World) : World :=
  {| G := G w; PROFILES := PROFILES w; POLICY := POLICY w; USERS := USERS w;
     IRI2LABEL := IRI2LABEL w; LABEL2IRI := LABEL2IRI w; APPS := APPS w;
     APP_KEYS := APP_KEYS w; STATE := STATE w; DB := db; ticks := ticks w |}.

Definition with_ticks (n : nat) (w : World) : World :=
  {| G := G w; PROFILES := PROFILES w; POLICY := POLICY w; USERS := USERS w;
     IRI2LABEL := IRI2LABEL w; LABEL2IRI := LABEL2IRI w; APPS := APPS w;
     APP_KEYS := APP_KEYS w; STATE := STATE w; DB := DB w; ticks := n |}.

Definition with_txlog (l : list TxRow) (db : Db) : Db :=
  {| txlog := l; constraints := constraints db; validators := validators db;
     shadow_validators := shadow_validators db; timeseries := timeseries db;
     shadowlog := shadowlog db |}.

Definition with_validators (l : list VRow) (db : Db) : Db :=
  {| txlog := txlog db; constraints := constraints db; validators := l;
     shadow_validators := shadow_validators db; timeseries := timeseries db;
     shadowlog := shadowlog db |}.

Definition with_timeseries (l : list TsRow) (db : Db) : Db :=
  {| txlog := txlog db; constraints := constraints db; validators := validators db;
     shadow_validators := shadow_validators db; timeseries := l;
     shadowlog := shadowlog db |}.

Definition with_shadowlog (l : list ShadowRow) (db : Db) : Db :=
  {| txlog := txlog db; constraints := constraints db; validators := validators db;
     shadow_validators := shadow_validators db; timeseries := timeseries db;
     shadowlog := l |}.

Definition with_rate (b : Bucket) (inst : Instance) : Instance :=
  {| manifest := manifest inst; pid := pid inst; key := key inst;
     caps := caps inst; inst_user := inst_user inst; rate := Some b |}.

Definition with_prev_value (p : option Q) (req : WriteReq) : WriteReq :=
  {| point_label := point_label req; value := value req; prev_value := p |}.

(** ** Handlers as state-and-exception computations *)

Definition M (A : Type) : Type := World -> result A * World.

Definition ret {A} (a : A) : M A := fun w => (Return a, w).

Definition raise {A} (e : exn) : M A := fun w => (Raise e, w).

Definition bind {A B} (c : M A) (k : A -> M B) : M B :=
  fun w => match c w with
           | (Return a, w') => k a w'
           | (Raise e, w') => (Raise e, w')
           end.

Definition gets {A} (f : World -> A) : M A := fun w => (Return (f w), w).

Definition modify (f : World -> World) : M unit := fun w => (Return tt, f w).

Notation "'let*' x := c 'in' k" := (bind c (fun x => k))
  (at level 10, x name, c at level 100, k at level 200).

Definition with_USERS (us : gmap string (gmap string string)) (w : World) : World :=
  {| G := G w; PROFILES := PROFILES w; POLICY := POLICY w; USERS := us;
     IRI2LABEL := IRI2LABEL w; LABEL2IRI := LABEL2IRI w; APPS := APPS w;
     APP_KEYS := APP_KEYS w; STATE := STATE w; DB := DB w; ticks := ticks w |}.

(** ** Brick helpers *)

Definition query_iris (g : Graph) (sparql : string) : list string :=
  map (fun r : Row => r "pt") (query g sparql).

Definition class_query (iri : string) : string :=
  "SELECT ?cls WHERE { <" +:+ iri +:+ "> a ?cls . }".

Definition class_of_iri (g : Graph) (iri : string) : option string :=
  match query g (class_query iri) with
  | r :: _ => Some (r "cls")
  | [] => None
  end.

Definition typed_label_query (label brick_type_qname : string) : string :=
  "
      PREFIX rdfs: <http://www.w3.org/2000/01/rdf-schema#>
      PREFIX brick: <https://brickschema.org/schema/Brick#>
      SELECT ?x WHERE { ?x a " +:+ brick_type_qname +:+ " ; rdfs:label "
  +:+ Str.dquote +:+ label +:+ Str.dquote +:+ " . }
    ".

Definition require_typed_label (g : Graph) (label brick_type_qname : string)
  : result unit :=
  match query g (typed_label_query label brick_type_qname) with
  | [] => Raise (HTTPException 400
                   ("Typed argument check failed: label '" +:+ label
                    +:+ "' is not a " +:+ brick_type_qname))
  | _ :: _ => Return tt
  end.

(** ** A small installation

    Two cooling setpoints in one building, one registered application and
    two users; used to run the handlers on concrete requests. *)

Module Sample.

Definition the_clock : nat -> Q := fun _ => 120%Q.
Definition render : string -> gmap string string -> string := fun tpl _ => tpl.
(** Whole numbers print as in Python, other values as a fraction. *)
Definition show (q : Q) : string :=
  if decide (Qden q = 1%positive) then pretty (Qnum q)
  else pretty (Qnum q) +:+ "/" +:+ pretty (Z.pos (Qden q)).

Definition cooling : string :=
  "https://brickschema.org/schema/Brick#Cooling_Setpoint".

Definition zoneA : string := "urn:bldg#F1_ZoneA_Cool_SP".
Definition zoneB : string := "urn:bldg#F2_ZoneB_Cool_SP".

Definition bound (v : string) : Row := fun _ => v.

Definition graph : Graph :=
  {| query := fun q =>
       if decide (q = "SELECT ?pt WHERE { ?pt a brick:Cooling_Setpoint . }")
       then [bound zoneA; bound zoneB]
       else if decide (q = "SELECT ?pt WHERE { ?pt brick:isPointOf :ZoneA . }")
       then [bound zoneA]
       else if decide (q = class_query zoneA) then [bound cooling]
       else if decide (q = class_query zoneB) then [bound cooling]
       else [] |}.

Definition profiles : gmap string Profile :=
  {[ "cooling" := {| pf_args := [];
                     sparql := "SELECT ?pt WHERE { ?pt a brick:Cooling_Setpoint . }" |} ]}.

Definition alice : gmap string string :=
  <["sparql_read" := "SELECT ?pt WHERE { ?pt brick:isPointOf :ZoneA . }"]>
    {[ "sparql_write" := "SELECT ?pt WHERE { ?pt brick:isPointOf :ZoneA . }" ]}.

(** [bob] has no stored query. *)
Definition users : gmap string (gmap string string) :=
  <["alice" := alice]> {[ "bob" := ∅ ]}.

Definition man (mode who : string) : Manifest :=
  {| app_id := "comfort"; profile := "cooling"; args := ∅;
     delegation := mode; write_rate_limit_per_min := 2;
     permissions := {[ "write" := true ]}; user := who |}.

Definition inst : Instance :=
  {| manifest := man "augmentation" "alice"; pid := 4242;
     key := "key_comfort-1"; caps := {| cap_read := [zoneA; zoneB]; cap_write := [zoneA; zoneB] |};
     inst_user := "alice";
     rate := Some {| limit := 2; tokens := 0; win := 2 |} |}.

Definition policy : Policy :=
  {| guards := {[ "Cooling_Setpoint" :=
                    {| g_min := 18; g_max := 28; g_max_step := 1 |} ]} |}.

Definition row (pos : Z) (v : string) : VRow :=
  {| resource_class := "Cooling_Setpoint"; position := pos; vtype := v |}.

Definition db (cs : gmap string Q) (enforced shadow : list VRow) : Db :=
  {| txlog := []; constraints := cs; validators := enforced;
     shadow_validators := shadow; timeseries := []; shadowlog := [] |}.

Definition world (d : Db) : World :=
  {| G := graph; PROFILES := profiles; POLICY := policy; USERS := users;
     IRI2LABEL := <[zoneA := "F1_ZoneA_Cool_SP"]> {[ zoneB := "F2_ZoneB_Cool_SP" ]};
     LABEL2IRI := <["F1_ZoneA_Cool_SP" := zoneA]> {[ "F2_ZoneB_Cool_SP" := zoneB ]};
     APPS := {[ "comfort-1" := inst ]};
     APP_KEYS := {[ "key_comfort-1" := "comfort-1" ]};
     STATE := <["F1_ZoneA_Cool_SP" := 22%Q]>
                (<["F1_ZoneA_Heat_SP" := 21%Q]>
                   (<["F2_ZoneB_Cool_SP" := 22%Q]>
                      {[ "F2_ZoneB_Heat_SP" := 21%Q ]}));
     DB := d; ticks := 0 |}.

Definition req (v : Q) : WriteReq :=
  {| point_label := "F1_ZoneA_Cool_SP"; value := v; prev_value := None |}.

End Sample.

(** ** Further data: reads, registration, policy files, monitor *)

(** The body of a successful [/read] response. *)
Record ReadResp : Type := { read_point : string; read_value : option Q }.

(** What [start_app_instance] returns. *)
Record StartInfo : Type := {
  app_instance_id : string; info_pid : Z; info_key : string
}.

(** [policy.yaml]: guards, constraints, and the default chains per class in
    the order of the YAML mappings; each chain entry is the ["type"] of its
    validator. *)
Record PolicyDoc : Type := {
  doc_guards : gmap string Guard;
  doc_constraints : gmap string Q;
  doc_validators : list (string * list string);
  doc_shadow_validators : list (string * list string)
}.

(** What [load_all] reads from the four files. *)
Record Files : Type := {
  model_ttl : Graph;
  permission_profiles : gmap string Profile;
  policy_yaml : PolicyDoc;
  users_yaml : gmap string (gmap string string)
}.

Definition label_query : string :=
  "
          PREFIX rdfs: <http://www.w3.org/2000/01/rdf-schema#>
          SELECT ?pt ?lbl WHERE { ?pt rdfs:label ?lbl . }
        ".

(** One entry of [cfg["actions"]]: its ["type"] and its optional
    ["match"]. *)
Record MonitorAction : Type := { act_type : string; act_match : option string }.

(** [POLICY.get("monitor", {})] with the defaults of [monitor_loop] filled
    in. *)
Record MonitorCfg : Type := {
  window_seconds : Q;
  threshold_count : Z;
  cooling_min : Q;
  cooling_reset : Q;
  actions : list MonitorAction
}.

(** ** The sample installation, continued *)

Module Site.

Definition labelled (pt lbl : string) : Row :=
  fun v => if decide (v = "pt") then pt else lbl.

(** The sample graph, with labels for the two setpoints and one zone. *)
Definition graph : Graph :=
  {| query := fun q =>
       if decide (q = label_query)
       then [labelled Sample.zoneA "F1_ZoneA_Cool_SP";
             labelled Sample.zoneB "F2_ZoneB_Cool_SP"]
       else if decide (q = typed_label_query "ZoneA" "brick:HVAC_Zone")
       then [Sample.bound "urn:bldg#ZoneA"]
       else query Sample.graph q |}.

Definition profiles : gmap string Profile :=
  <["zone_points" :=
      {| pf_args := [("zone", {| arg_type := Some "brick:HVAC_Zone" |})];
         sparql := "SELECT ?pt WHERE { ?pt brick:isPointOf :ZoneA . }" |}]>
    Sample.profiles.

Definition policy_doc : PolicyDoc :=
  {| doc_guards := guards Sample.policy;
     doc_constraints := {[ "comfort_min" := 21%Q ]};
     doc_validators := [("Cooling_Setpoint", ["range"; "rate"])];
     doc_shadow_validators := [("Cooling_Setpoint", ["comfort_band"])] |}.

Definition files : Files :=
  {| model_ttl := graph; permission_profiles := profiles;
     policy_yaml := policy_doc; users_yaml := Sample.users |}.

(** The sample state with enforced chain [range, rate] and shadow chain
    [comfort_band]. *)
Definition world : World :=
  Sample.world (Sample.db ∅ [Sample.row 0 "range"; Sample.row 1 "rate"]
                          [Sample.row 0 "comfort_band"]).

Definition key : option string := Some "key_comfort-1".

Definition monitor_cfg : MonitorCfg :=
  {| window_seconds := 12; threshold_count := 5; cooling_min := 20;
     cooling_reset := 22;
     actions := [ {| act_type := "reset_points"; act_match := Some "Cool_SP" |};
                  {| act_type := "revoke_capabilities"; act_match := None |};
                  {| act_type := "terminate_apps"; act_match := None |} ] |}.

End Site.

Section Server.

(** Successive readings of [time.time()]. *)
Variable clock : nat -> Q.
(** Jinja2: the template [tpl] rendered with the arguments [args]. *)
Variable jinja_render : string -> gmap string string -> string.
(** The text an f-string gives for a number. *)
Variable py_str : Q -> string.

Definition time_time : M Q :=
  fun w => (Return (clock (ticks w)), with_ticks (S (ticks w)) w).

(** *** Permission Manager *)

(** The loop of [render_profile] over [pf.get("args", {}).items()]. *)
Fixpoint check_args (g : Graph) (args : gmap string string)
         (metas : list (string * ArgMeta)) : result unit :=
  match metas with
  | [] => Return tt
  | (arg_name, meta) :: rest =>
      match args !! arg_name, arg_type meta with
      | Some label, Some ty =>
          match require_typed_label g label ty with
          | Raise e => Raise e
          | Return _ => check_args g args rest
          end
      | _, _ => check_args g args rest
      end
  end.

Definition render_profile (w : World) (profile : string)
           (args : gmap string string) : result string :=
  match PROFILES w !! profile with
  | None => Raise (KeyError profile)
  | Some pf =>
      match check_args (G w) args (pf_args pf) with
      | Raise e => Raise e
      | Return _ => Return (jinja_render (sparql pf) args)
      end
  end.

Definition user_caps (w : World) (user op : string) : list string :=
  let u := default ∅ (USERS w !! user) in
  match u !! ("sparql_" +:+ op) with
  | None => []
  | Some q => query_iris (G w) q
  end.

Definition compute_caps (w : World) (man : Manifest) : result Caps :=
  match render_profile w (profile man) (args man) with
  | Raise e => Raise e
  | Return q =>
      let app_read := query_iris (G w) q in
      let app_write :=
        if default false (permissions man !! "write") then app_read else [] in
      if decide (delegation man = "augmentation") then
        Return {| cap_read := app_read; cap_write := app_write |}
      else
        let uread := user_caps w (user man) "read" in
        let uwrite := user_caps w (user man) "write" in
        Return {| cap_read := filter (fun i => i ∈ uread) app_read;
                  cap_write := filter (fun i => i ∈ uwrite) app_write |}
  end.

(** *** Resource Proxy and logs *)

Definition log_tx (actor app_id user_id action iri label : string)
           (value : option Q) (decision reason : string) : M unit :=
  let* ts := time_time in
  modify (fun w =>
    with_DB (with_txlog
               (txlog (DB w) ++
                [ {| tx_ts := ts; tx_actor := actor; tx_app_id := app_id;
                     tx_user_id := user_id; tx_action := action;
                     tx_point_iri := iri; tx_point_label := label;
                     tx_value := value; tx_decision := decision;
                     tx_reason := reason |} ])
               (DB w)) w).

Definition log_timeseries (label : string) (value : Q) : M unit :=
  let* ts := time_time in
  modify (fun w =>
    with_DB (with_timeseries
               (timeseries (DB w) ++
                [ {| ts_ts := ts; ts_point_label := label; ts_value := value |} ])
               (DB w)) w).

Definition log_shadow (app_id user_id iri label : string) (value : Q)
           (cls vtype reason : string) : M unit :=
  let* ts := time_time in
  modify (fun w =>
    with_DB (with_shadowlog
               (shadowlog (DB w) ++
                [ {| sh_ts := ts; sh_app_id := app_id; sh_user_id := user_id;
                     sh_point_iri := iri; sh_point_label := label;
                     sh_value := value; sh_cls := cls; sh_vtype := vtype;
                     sh_reason := reason |} ])
               (DB w)) w).

Definition proxy_read (w : World) (label : string) : option Q :=
  STATE w !! label.

Definition proxy_write (label : string) (value : Q) : M unit :=
  let* _ := modify (fun w => with_STATE (<[label := value]> (STATE w)) w) in
  log_timeseries label value.

(** *** Validator chains *)

Definition get_constraints (w : World) : gmap string Q := constraints (DB w).

(** [ORDER BY position ASC]: rows of equal position keep their rowid
    order here; SQL itself leaves their order open. *)
Fixpoint insert_by_position (r : VRow) (sorted : list VRow) : list VRow :=
  match sorted with
  | [] => [r]
  | r' :: rest =>
      if position r <=? position r' then r :: r' :: rest
      else r' :: insert_by_position r rest
  end.

Definition order_by_position (rows : list VRow) : list VRow :=
  foldr insert_by_position [] rows.

(** [WHERE resource_class=?] *)
Definition rows_of_class (local : string) (rows : list VRow) : list VRow :=
  filter (fun r => resource_class r = local) rows.

(** [SELECT vtype FROM t WHERE resource_class=? ORDER BY position ASC] *)
Definition select_vtypes (local : string) (rows : list VRow) : list string :=
  map vtype (order_by_position (rows_of_class local rows)).

Definition get_validators_for_class (w : World) (cls : string) : list string :=
  select_vtypes (Str.local_name cls) (validators (DB w)).

Definition get_shadow_validators_for_class (w : World) (cls : string)
  : list string :=
  select_vtypes (Str.local_name cls) (shadow_validators (DB w)).

(** *** Validators *)

Definition Validator : Type :=
  World -> string -> string -> Q -> option Q -> bool * string.

Definition v_range : Validator := fun w cls label value prev =>
  let local := Str.local_name cls in
  match guards (POLICY w) !! local with
  | None => (true, "no-range")
  | Some g =>
      if Num.ltb value (g_min g) || Num.gtb value (g_max g) then
        (false, "range " +:+ py_str (g_min g) +:+ "–" +:+ py_str (g_max g))
      else (true, "ok")
  end.

Definition v_rate : Validator := fun w cls label value prev =>
  let local := Str.local_name cls in
  match guards (POLICY w) !! local, prev with
  | Some g, Some p =>
      if Num.gtb (Qabs (value - p)) (g_max_step g) then
        (false, "step>" +:+ py_str (g_max_step g))
      else (true, "ok")
  | _, _ => (true, "no-rate")
  end.

Definition v_energy_budget : Validator := fun w cls label value prev =>
  let c := get_constraints w in
  let watts := default 5000%Q (c !! "energy_budget_watts") in
  let per_deg := default 150%Q (c !! "energy_per_degree_watts") in
  if Str.contains "Cool_SP" label
     && Num.ltb value (default 20%Q (c !! "min_cool_setpoint")) then
    let need := Num.py_int ((20 - value) * per_deg) in
    if Num.gtb (inject_Z need) watts then (false, "energy_budget")
    else (true, "ok")
  else (true, "ok").

Definition v_comfort_band : Validator := fun w cls label value prev =>
  let c := get_constraints w in
  let lo := default 21%Q (c !! "comfort_min") in
  let hi := default 24%Q (c !! "comfort_max") in
  if Num.ltb value lo || Num.gtb value hi then
    (false, "comfort_band " +:+ py_str lo +:+ "–" +:+ py_str hi)
  else (true, "ok").

Definition VALIDATOR_FUNS : gmap string Validator :=
  <["range" := v_range]>
    (<["rate" := v_rate]>
       (<["energy_budget" := v_energy_budget]>
          (<["comfort_band" := v_comfort_band]> ∅))).

(** [VALIDATOR_FUNS[vname]]; [None] stands for the [KeyError]. *)
Definition validator_named (vname : string) : option Validator :=
  VALIDATOR_FUNS !! vname.

(** *** App Steward: rate limiting *)

(** [inst] is the dictionary stored at [APPS[aid]]; the bucket is changed
    in place, so the changed instance is stored back under [aid]. *)
Definition token_bucket_ok (aid : string) (inst : Instance) : M bool :=
  let* now := time_time in
  let bucket :=
    match rate inst with
    | Some b => b
    | None => {| limit := write_rate_limit_per_min (manifest inst);
                 tokens := 0; win := Num.minute_of now |}
    end in
  let bucket :=
    if decide (Num.minute_of now = win bucket) then bucket
    else {| limit := limit bucket; tokens := 0; win := Num.minute_of now |} in
  if tokens bucket >=? limit bucket then
    let* _ := modify (fun w =>
                with_APPS (<[aid := with_rate bucket inst]> (APPS w)) w) in
    ret false
  else
    let bucket := {| limit := limit bucket; tokens := tokens bucket + 1;
                     win := win bucket |} in
    let* _ := modify (fun w =>
                with_APPS (<[aid := with_rate bucket inst]> (APPS w)) w) in
    ret true.

(** *** Auth *)

Definition get_app_instance_from_key (app_key : option string)
  : M (string * Instance) :=
  match app_key with
  | None | Some "" => raise (HTTPException 401 "Missing X-App-Key")
  | Some k =>
      let* keys := gets APP_KEYS in
      match keys !! k with
      | None | Some "" => raise (HTTPException 403 "Invalid X-App-Key")
      | Some aid =>
          let* apps := gets APPS in
          match apps !! aid with
          | None => raise (KeyError aid)
          | Some inst => ret (aid, inst)
          end
      end
  end.

(** *** Endpoints *)

Record PromoteResp : Type := {
  promote_ok : bool; promoted : list string; promoted_class : string
}.

(** [SELECT MAX(position)]: [None] on no rows. *)
Definition max_position (rows : list VRow) : option Z :=
  foldr (fun r acc => match acc with
                      | None => Some (position r)
                      | Some m => Some (Z.max (position r) m)
                      end) None rows.

(** [x or d] for an optional integer: [None] and [0] are both falsy. *)
Definition py_or (x : option Z) (d : Z) : Z :=
  match x with
  | None => d
  | Some m => if m =? 0 then d else m
  end.

Definition admin_promote_shadow (resource_class : string) : M PromoteResp :=
  let local := Str.local_name resource_class in
  let* db := gets DB in
  let sv := select_vtypes local (shadow_validators db) in
  match sv with
  | [] => raise (HTTPException 404 "No shadow validators to promote for class")
  | _ :: _ =>
      let base := py_or (max_position (rows_of_class local (validators db))) (-1) in
      let* _ := modify (fun w =>
        with_DB (with_validators
                   (validators (DB w) ++
                    imap (fun i v => {| resource_class := local;
                                        position := base + 1 + Z.of_nat i;
                                        vtype := v |}) sv)
                   (DB w)) w) in
      ret {| promote_ok := true; promoted := sv; promoted_class := local |}
  end.

(** The loop of [write] over the enforced chain. *)
Fixpoint run_enforced (vlist : list string) (aid user iri cls : string)
         (req : WriteReq) (prev : option Q) : M unit :=
  match vlist with
  | [] => ret tt
  | vname :: rest =>
      match validator_named vname with
      | None => raise (KeyError vname)
      | Some f =>
          let* r := gets (fun w => (f w cls (point_label req) (value req) prev
                                    : bool * string)) in
          if fst r then run_enforced rest aid user iri cls req prev
          else
            let* _ := log_tx "regulator" aid user "write" iri (point_label req)
                             (Some (value req)) "deny" (snd r) in
            raise (HTTPException 400 ("Guard blocked: " +:+ snd r))
      end
  end.

(** The loop of [write] over the shadow chain. *)
Fixpoint run_shadow (sv : list string) (aid user iri cls : string)
         (req : WriteReq) (prev : option Q) : M unit :=
  match sv with
  | [] => ret tt
  | vname :: rest =>
      match validator_named vname with
      | None => raise (KeyError vname)
      | Some f =>
          let* r := gets (fun w => (f w cls (point_label req) (value req) prev
                                    : bool * string)) in
          let* _ := if fst r then ret tt
                    else log_shadow aid user iri (point_label req) (value req)
                                    cls vname (snd r) in
          run_shadow rest aid user iri cls req prev
      end
  end.

(** [write], from the key to the capability check (authentication, rate
    gate, point lookup, write capability): the instance and the identifier of
    the point.  The rate gate changes the bucket stored in [APPS]; what is
    read from [inst] afterwards, [caps] and [user], is not touched by it. *)
Definition write_admission (req : WriteReq) (x_app_key : option string)
  : M (string * Instance * string) :=
  let* ai := get_app_instance_from_key x_app_key in
  let aid := fst ai in
  let inst := snd ai in
  let* ok := token_bucket_ok aid inst in
  if negb ok then raise (HTTPException 429 "Write rate limit exceeded")
  else
    let* l2i := gets LABEL2IRI in
    match l2i !! point_label req with
    | None | Some "" => raise (HTTPException 404 "Unknown point")
    | Some iri =>
        if decide (iri ∈ cap_write (caps inst)) then ret (aid, inst, iri)
        else
          let* _ := log_tx "app" aid (inst_user inst) "write" iri
                           (point_label req) (Some (value req))
                           "deny" "no-cap-write" in
          raise (HTTPException 403 "No write capability")
    end.

(** [write], from the class lookup to the response: the enforced chain,
    the shadow chain, the commit and the [allow] record. *)
Definition write_guarded (aid : string) (inst : Instance) (iri : string)
           (req : WriteReq) : M WriteResp :=
  let* g := gets G in
  let cls := default "" (class_of_iri g iri) in
  let* vlist := gets (fun w => get_validators_for_class w cls) in
  match vlist with
  | [] =>
      let* _ := log_tx "regulator" aid (inst_user inst) "write" iri
                       (point_label req) (Some (value req))
                       "deny" "no-validators" in
      raise (HTTPException 400 "No validators configured")
  | _ :: _ =>
      let* prev := gets (fun w => proxy_read w (point_label req)) in
      let* _ := run_enforced vlist aid (inst_user inst) iri cls req prev in
      let* sv := gets (fun w => get_shadow_validators_for_class w cls) in
      let* _ := run_shadow sv aid (inst_user inst) iri cls req prev in
      let* _ := proxy_write (point_label req) (value req) in
      let* _ := log_tx "proxy" aid (inst_user inst) "write" iri
                       (point_label req) (Some (value req)) "allow" "ok" in
      ret {| resp_ok := true; resp_point := point_label req;
             resp_value := value req |}
  end.

(** The [/write] endpoint.  It runs under [UPDATE_LOCK], so requests are
    handled one at a time. *)
Definition write (req : WriteReq) (x_app_key : option string)
  : M WriteResp :=
  let* adm := write_admission req x_app_key in
  write_guarded (fst (fst adm)) (snd (fst adm)) (snd adm) req.

(** A run of write requests under one key, in order. *)
Fixpoint write_attempts (x_app_key : option string) (reqs : list WriteReq)
         (w : World) : list (result WriteResp) * World :=
  match reqs with
  | [] => ([], w)
  | req :: rest =>
      let (r, w1) := write req x_app_key w in
      let (rs, w2) := write_attempts x_app_key rest w1 in
      (r :: rs, w2)
  end.

(** *** Reading the claims *)

(** The energy check in the words of the specification: below the
    configured minimum the extra wattage is [(min - value) * per_degree],
    and the write is accepted unless that exceeds the budget. *)
Definition energy_budget_as_specified (w : World) (label : string) (value : Q)
  : bool :=
  let c := get_constraints w in
  let watts := default 5000%Q (c !! "energy_budget_watts") in
  let per_deg := default 150%Q (c !! "energy_per_degree_watts") in
  let lowest := default 20%Q (c !! "min_cool_setpoint") in
  if Str.contains "Cool_SP" label && Num.ltb value lowest then
    negb (Num.gtb ((lowest - value) * per_deg) watts)
  else true.

(** The findings of a shadow chain: validator and reason, for each
    evaluation that rejects, in chain order. *)
Definition rejections (w : World) (cls label : string) (value : Q)
           (prev : option Q) (sv : list string) : list (string * string) :=
  flat_map (fun vname =>
              match validator_named vname with
              | Some f => let r : bool * string := f w cls label value prev in
                          if fst r then [] else [(vname, snd r)]
              | None => []
              end) sv.

(** The rate bucket stored for an instance. *)
Definition bucket_of (w : World) (aid : string) : option Bucket :=
  match APPS w !! aid with
  | Some inst => rate inst
  | None => None
  end.

Definition rate_limited : exn :=
  HTTPException 429 "Write rate limit exceeded".

(** What a handler leaves of the Resource Proxy: the stored values and
    the time series. *)
Definition proxy_view (w : World) : gmap string Q * list TsRow :=
  (STATE w, timeseries (DB w)).

Definition by_position (a b : VRow) : Prop := position a <= position b.

(** Validator [vname] is registered and accepts the request in [w]. *)
Definition accepts (w : World) (cls : string) (req : WriteReq)
           (prev : option Q) (vname : string) : Prop :=
  exists f : Validator,
    validator_named vname = Some f /\
    fst (f w cls (point_label req) (value req) prev) = true.

(** Validator [vname] is registered and rejects the request in [w] with
    [reason]. *)
Definition rejects (w : World) (cls : string) (req : WriteReq)
           (prev : option Q) (vname reason : string) : Prop :=
  exists f : Validator,
    validator_named vname = Some f /\
    f w cls (point_label req) (value req) prev = (false, reason).

(** [c] leaves the observation [f] of the state as it was, whatever it
    returns or raises. *)
Definition keeps {A B : Type} (f : World -> A) (c : M B) : Prop :=
  forall w, f (snd (c w)) = f w.

(** The transaction-log row of a write decision. *)
Definition write_tx (ts : Q) (actor aid user iri : string) (req : WriteReq)
           (decision reason : string) : TxRow :=
  {| tx_ts := ts; tx_actor := actor; tx_app_id := aid; tx_user_id := user;
     tx_action := "write"; tx_point_iri := iri;
     tx_point_label := point_label req; tx_value := Some (value req);
     tx_decision := decision; tx_reason := reason |}.

(** The state after [log_tx] has read the clock and appended [row]. *)
Definition logged_tx (row : TxRow) (w : World) : World :=
  with_DB (with_txlog (txlog (DB w) ++ [row]) (DB w))
          (with_ticks (S (ticks w)) w).

(** A shadow-log row without its time stamp. *)
Definition shadow_finding (r : ShadowRow)
  : string * string * string * string * Q * string * string * string :=
  (sh_app_id r, sh_user_id r, sh_point_iri r, sh_point_label r, sh_value r,
   sh_cls r, sh_vtype r, sh_reason r).

(** The state after [log_shadow] has run once for each of [rows]. *)
Definition logged_shadow (rows : list ShadowRow) (w : World) : World :=
  with_DB (with_shadowlog (shadowlog (DB w) ++ rows) (DB w))
          (with_ticks (length rows + ticks w) w).

(** What a shadow-log row records of the finding [vr] on a request. *)
Definition finding_of (aid user iri cls : string) (req : WriteReq)
           (vr : string * string)
  : string * string * string * string * Q * string * string * string :=
  (aid, user, iri, point_label req, value req, cls, fst vr, snd vr).

(** [c] never answers 429, leaves the registry of instances and keys
    alone, and only moves the clock forward. *)
Definition quiet {B : Type} (c : M B) : Prop :=
  forall w,
    fst (c w) <> Raise rate_limited /\
    APPS (snd (c w)) = APPS w /\
    APP_KEYS (snd (c w)) = APP_KEYS w /\
    (ticks w <= ticks (snd (c w)))%nat.

(** *** The read endpoint *)

(** The [/read] endpoint: no lock, no rate gate. *)
Definition read (point_label : string) (x_app_key : option string)
  : M ReadResp :=
  let* ai := get_app_instance_from_key x_app_key in
  let aid := fst ai in
  let inst := snd ai in
  let* l2i := gets LABEL2IRI in
  match l2i !! point_label with
  | None | Some "" => raise (HTTPException 404 "Unknown point")
  | Some iri =>
      if decide (iri ∈ cap_read (caps inst)) then
        let* val := gets (fun w => proxy_read w point_label) in
        let* _ := log_tx "app" aid (inst_user inst) "read" iri point_label
                         val "allow" "ok" in
        ret {| read_point := point_label; read_value := val |}
      else
        let* _ := log_tx "app" aid (inst_user inst) "read" iri point_label
                         None "deny" "no-cap-read" in
        raise (HTTPException 403 "No read capability")
  end.

(** *** Observations used in the statements below *)

(** Every state that [c] can end in is related to the one it started in. *)
Definition steps {B : Type} (R : World -> World -> Prop) (c : M B) : Prop :=
  forall w, R w (snd (c w)).

(** Whatever [c] raises satisfies [P]. *)
Definition raises_only {B : Type} (P : exn -> Prop) (c : M B) : Prop :=
  forall w e, fst (c w) = Raise e -> P e.

(** The logs of [d'] extend those of [d]; the configuration tables are the
    same. *)
Definition db_grows (d d' : Db) : Prop :=
  txlog d `prefix_of` txlog d' /\
  shadowlog d `prefix_of` shadowlog d' /\
  timeseries d `prefix_of` timeseries d' /\
  constraints d' = constraints d /\
  validators d' = validators d /\
  shadow_validators d' = shadow_validators d.

(** What the request handlers only read: graph, profiles, policy, users,
    label maps and keys. *)
Definition configuration (w : World)
  : Graph * gmap string Profile * Policy * gmap string (gmap string string)
    * gmap string string * gmap string string * gmap string string :=
  (G w, PROFILES w, POLICY w, USERS w, IRI2LABEL w, LABEL2IRI w, APP_KEYS w).

(** A policy failure of the write pipeline, or a lookup failure. *)
Definition policy_or_key_error (e : exn) : Prop :=
  (exists d, e = HTTPException 400 d) \/ (exists k, e = KeyError k).

(** [grows w w']: the database of [w'] extends the one of [w]. *)
Definition grows (w w' : World) : Prop := db_grows (DB w) (DB w').

(** Two records of an instance that differ at most in the rate bucket. *)
Definition same_but_rate (i i' : Instance) : Prop :=
  manifest i' = manifest i /\ pid i' = pid i /\ key i' = key i /\
  caps i' = caps i /\ inst_user i' = inst_user i.

(** Everything a read may not change: all of the state but the
    transaction log and the clock. *)
Definition all_but_txlog (w : World) :=
  (configuration w, APPS w, STATE w, with_txlog [] (DB w)).

(** The key [k] is the key of a registered instance, and the registry of
    [w'] is the one of [w] with a new rate bucket for that instance. *)
Definition bucket_updated (k : option string) (w w' : World) : Prop :=
  exists (k0 aid : string) (inst : Instance) (b : Bucket),
    k = Some k0 /\ APP_KEYS w !! k0 = Some aid /\
    APPS w !! aid = Some inst /\
    APPS w' = <[aid := with_rate b inst]> (APPS w).

(** *** App Steward: lifecycle *)

Definition with_APP_KEYS (keys : gmap string string) (w : World) : World :=
  {| G := G w; PROFILES := PROFILES w; POLICY := POLICY w; USERS := USERS w;
     IRI2LABEL := IRI2LABEL w; LABEL2IRI := LABEL2IRI w; APPS := APPS w;
     APP_KEYS := keys; STATE := STATE w; DB := DB w; ticks := ticks w |}.

(** A value or an exception of a function that does not change the state. *)
Definition lift {A : Type} (r : World -> result A) : M A :=
  fun w => (r w, w).

(** [spawned_pid] is the pid of the process that [subprocess.Popen] starts;
    the process itself is outside the model. *)
Definition start_app_instance (man : Manifest) (spawned_pid : Z) : M StartInfo :=
  let* t := time_time in
  let aid := app_id man +:+ "-" +:+ pretty (Num.py_int (t * 1000)) in
  let* cs := lift (fun w => compute_caps w man) in
  let APP_KEY := "key_" +:+ aid in
  let* t' := time_time in
  let inst := {| manifest := man; pid := spawned_pid; key := APP_KEY;
                 caps := cs; inst_user := user man;
                 rate := Some {| limit := write_rate_limit_per_min man;
                                 tokens := 0; win := Num.minute_of t' |} |} in
  let* _ := modify (fun w =>
              with_APP_KEYS (<[APP_KEY := aid]> (APP_KEYS w))
                            (with_APPS (<[aid := inst]> (APPS w)) w)) in
  ret {| app_instance_id := aid; info_pid := spawned_pid; info_key := APP_KEY |}.

(** [os.kill] acts on the process only, and its errors are swallowed. *)
Definition stop_app_instance (aid : string) : M unit :=
  let* apps := gets APPS in
  match apps !! aid with
  | None => ret tt
  | Some inst =>
      modify (fun w =>
        with_APPS (delete aid (APPS w))
                  (with_APP_KEYS (delete (key inst) (APP_KEYS w)) w))
  end.

(** The registry is consistent: every key is [key_] followed by the id of a
    registered instance, and every instance records that key. *)
Definition registry_ok (w : World) : Prop :=
  (forall k a, APP_KEYS w !! k = Some a ->
               k = "key_" +:+ a /\ is_Some (APPS w !! a)) /\
  (forall a inst, APPS w !! a = Some inst -> key inst = "key_" +:+ a).

(** Argument [am] of a profile passes the typed-label check of
    [render_profile]: it is not supplied, has no declared type, or the graph
    has a node of that type with the supplied label. *)
Definition arg_checks (g : Graph) (args : gmap string string)
           (am : string * ArgMeta) : Prop :=
  forall label ty,
    args !! fst am = Some label -> arg_type (snd am) = Some ty ->
    query g (typed_label_query label ty) <> [].

(** *** Loading the model and the policy *)

(** [for pos, spec in enumerate(arr)] under [for cls, arr in items] *)
Definition chain_rows (items : list (string * list string)) : list VRow :=
  flat_map (fun ca : string * list string =>
              imap (fun pos ty => {| resource_class := fst ca;
                                     position := Z.of_nat pos;
                                     vtype := ty |}) (snd ca)) items.

Definition load_all (f : Files) : M unit :=
  modify (fun w =>
    let rows := query (model_ttl f) label_query in
    let pol := policy_yaml f in
    {| G := model_ttl f;
       PROFILES := permission_profiles f;
       POLICY := {| guards := doc_guards pol |};
       USERS := users_yaml f;
       IRI2LABEL := foldl (fun m (r : Row) => <[r "pt" := r "lbl"]> m) ∅ rows;
       LABEL2IRI := foldl (fun m (r : Row) => <[r "lbl" := r "pt"]> m) ∅ rows;
       APPS := APPS w; APP_KEYS := APP_KEYS w; STATE := STATE w;
       DB := {| txlog := txlog (DB w);
                constraints := doc_constraints pol ∪ constraints (DB w);
                validators := chain_rows (doc_validators pol);
                shadow_validators := chain_rows (doc_shadow_validators pol);
                timeseries := timeseries (DB w);
                shadowlog := shadowlog (DB w) |};
       ticks := ticks w |}).

(** *** Live monitor: the end of a window *)

(** One pass of the sampling loop over [STATE.items()]: the number of
    cooling setpoints below the minimum. *)
Definition monitor_sample (cmin : Q) (st : gmap string Q) : Z :=
  Z.of_nat (size (filter (fun kv : string * Q =>
                            Str.contains "Cool_SP" (fst kv) = true /\
                            Num.ltb (snd kv) cmin = true) st)).

Definition with_cap_write (l : list string) (inst : Instance) : Instance :=
  {| manifest := manifest inst; pid := pid inst; key := key inst;
     caps := {| cap_read := cap_read (caps inst); cap_write := l |};
     inst_user := inst_user inst; rate := rate inst |}.

(** [reset_points]: [keys] is [list(STATE.keys())]. *)
Fixpoint reset_points (keys : list string) (pat : string) (reset : Q) : M unit :=
  match keys with
  | [] => ret tt
  | k :: rest =>
      if Str.contains pat k then
        let* _ := modify (fun w => with_STATE (<[k := reset]> (STATE w)) w) in
        let* _ := log_timeseries k reset in
        reset_points rest pat reset
      else reset_points rest pat reset
  end.

(** [revoke_capabilities] *)
Definition revoke_capabilities : M unit :=
  modify (fun w => with_APPS (with_cap_write [] <$> APPS w) w).

(** [terminate_apps]: [aids] is [list(APPS.keys())]. *)
Fixpoint terminate_apps (aids : list string) : M unit :=
  match aids with
  | [] => ret tt
  | aid :: rest =>
      let* _ := stop_app_instance aid in
      terminate_apps rest
  end.

Definition monitor_action (cfg : MonitorCfg) (keys aids : list string)
           (act : MonitorAction) : M unit :=
  if decide (act_type act = "reset_points") then
    reset_points keys (default "" (act_match act)) (cooling_reset cfg)
  else if decide (act_type act = "revoke_capabilities") then
    revoke_capabilities
  else if decide (act_type act = "terminate_apps") then
    terminate_apps aids
  else ret tt.

Fixpoint monitor_actions (cfg : MonitorCfg) (keys aids : list string)
         (acts : list MonitorAction) : M unit :=
  match acts with
  | [] => ret tt
  | act :: rest =>
      let* _ := monitor_action cfg keys aids act in
      monitor_actions cfg keys aids rest
  end.

(** What [monitor_loop] does once a window has been sampled, as one step
    with no request in between: [cnt] is the count of the window, [keys] and
    [aids] are the keys of [STATE] and of [APPS]; the result is the value
    given to [RISK["cooling_low_excess"]]. *)
Definition monitor_window_end (cfg : MonitorCfg) (cnt : Z)
           (keys aids : list string) : M bool :=
  if cnt >=? threshold_count cfg then
    let* _ := monitor_actions cfg keys aids (actions cfg) in
    ret true
  else ret false.

(** No instance holds a write capability. *)
Definition no_write_caps (w : World) : Prop :=
  forall a inst, APPS w !! a = Some inst -> cap_write (caps inst) = [].

(** Some [reset_points] action of [cfg] matches the label [k]. *)
Definition is_reset (cfg : MonitorCfg) (k : string) : bool :=
  existsb (fun act => bool_decide (act_type act = "reset_points")
                      && Str.contains (default "" (act_match act)) k)
          (actions cfg).

(** *** Reload *)

Definition with_caps (cs : Caps) (inst : Instance) : Instance :=
  {| manifest := manifest inst; pid := pid inst; key := key inst;
     caps := cs; inst_user := inst_user inst; rate := rate inst |}.

(** The loop of [admin_reload] over [APPS.items()]; [aids] is the list of
    the keys of [APPS] in the order of the dictionary. *)
Fixpoint recompute_caps (aids : list string) : M unit :=
  match aids with
  | [] => ret tt
  | aid :: rest =>
      let* apps := gets APPS in
      match apps !! aid with
      | None => recompute_caps rest
      | Some inst =>
          let* cs := lift (fun w => compute_caps w (manifest inst)) in
          let* _ := modify (fun w =>
                      with_APPS (<[aid := with_caps cs inst]> (APPS w)) w) in
          recompute_caps rest
      end
  end.

(** [admin_reload], with the content of the files that [load_all] reads. *)
Definition admin_reload (f : Files) (aids : list string) : M bool :=
  let* _ := load_all f in
  let* _ := recompute_caps aids in
  ret true.

(** ** Capability resolution *)

Lemma render_profile_users (w : World) (us : gmap string (gmap string string))
      (p : string) (a : gmap string string) :
  render_profile (with_USERS us w) p a = render_profile w p a.
Proof. reflexivity. Qed.

Lemma filter_in_nil (l : list string) : filter (fun i => i ∈ @nil string) l = [].
Proof.
  induction l as [|x l IH]; [reflexivity|].
  rewrite filter_cons. destruct (decide (x ∈ [])) as [Hx|_]; [|exact IH].
  inversion Hx.
Qed.

(** C1 (amended): a manifest whose delegation is the string
    ["augmentation"] gets exactly the set derived from its profile: the
    read set is the result of the profile query, the write set is the same
    list when the ["write"] permission is true and empty otherwise,
    whatever the users' configuration is. *)
Theorem compute_caps_augmentation (w : World) (man : Manifest) (q : string)
        (us : gmap string (gmap string string)) :
  delegation man = "augmentation" ->
  render_profile w (profile man) (args man) = Return q ->
  compute_caps (with_USERS us w) man =
    Return {| cap_read := query_iris (G w) q;
              cap_write := if default false (permissions man !! "write")
                       then query_iris (G w) q else [] |}.
Proof.
  intros Hmode Hq. unfold compute_caps.
  rewrite render_profile_users, Hq. cbn [G with_USERS].
  destruct (decide (delegation man = "augmentation")); [reflexivity|contradiction].
Qed.

(** C8: under delegation ["delegated"] the write set is the app's
    write-eligible list filtered by membership in the user's write set, and
    the read set is the profile result filtered by the user's read set; an
    identifier is in the result exactly when it is in both sources, and a
    user without the stored query contributes the empty set. *)
Theorem compute_caps_delegated (w : World) (man : Manifest) (q : string) :
  delegation man = "delegated" ->
  render_profile w (profile man) (args man) = Return q ->
  let app_read := query_iris (G w) q in
  let app_write :=
    if default false (permissions man !! "write") then app_read else [] in
  exists c : Caps,
    compute_caps w man = Return c /\
    (forall i, i ∈ cap_write c <->
               i ∈ app_write /\ i ∈ user_caps w (user man) "write") /\
    (forall i, i ∈ cap_read c <->
               i ∈ app_read /\ i ∈ user_caps w (user man) "read") /\
    (default ∅ (USERS w !! user man) !! "sparql_write" = None -> cap_write c = []) /\
    (default ∅ (USERS w !! user man) !! "sparql_read" = None -> cap_read c = []).
Proof.
  intros Hmode Hq app_read app_write.
  eexists. split.
  - unfold compute_caps. rewrite Hq.
    destruct (decide (delegation man = "augmentation")) as [Heq|_].
    + rewrite Hmode in Heq. discriminate Heq.
    + reflexivity.
  - cbn [cap_read cap_write]. fold app_read. fold app_write.
    split; [|split; [|split]].
    + intros i. rewrite list_elem_of_filter. tauto.
    + intros i. rewrite list_elem_of_filter. tauto.
    + intros Hnone. unfold user_caps.
      change ("sparql_" +:+ "write") with "sparql_write".
      rewrite Hnone. apply filter_in_nil.
    + intros Hnone. unfold user_caps.
      change ("sparql_" +:+ "read") with "sparql_read".
      rewrite Hnone. apply filter_in_nil.
Qed.

(** ** Frame facts: what each step leaves alone *)

Section Keeps.
Context {A : Type} (f : World -> A).

Lemma keeps_ret {B} (b : B) : keeps f (ret b).
Proof. intros w. reflexivity. Qed.

Lemma keeps_raise {B} (e : exn) : keeps f (@raise B e).
Proof. intros w. reflexivity. Qed.

Lemma keeps_gets {B} (g : World -> B) : keeps f (gets g).
Proof. intros w. reflexivity. Qed.

Lemma keeps_bind {B C} (c : M B) (k : B -> M C) :
  keeps f c -> (forall b, keeps f (k b)) -> keeps f (bind c k).
Proof.
  intros Hc Hk w. unfold bind.
  specialize (Hc w). destruct (c w) as [[b|e] w1]; cbn in *.
  - rewrite Hk. exact Hc.
  - exact Hc.
Qed.
End Keeps.

Lemma get_app_instance_from_key_pure (k : option string) (w : World) :
  snd (get_app_instance_from_key k w) = w.
Proof.
  unfold get_app_instance_from_key.
  destruct k as [[|c s]|]; try reflexivity.
  unfold bind, gets. cbn.
  destruct (APP_KEYS w !! String c s) as [[|c' s']|]; try reflexivity.
  cbn. destruct (APPS w !! String c' s'); reflexivity.
Qed.

Lemma token_bucket_ok_proxy (aid : string) (inst : Instance) :
  keeps proxy_view (token_bucket_ok aid inst).
Proof.
  intros w. unfold token_bucket_ok, bind, time_time. cbn.
  match goal with |- context [if ?b then _ else _] => destruct b end;
    reflexivity.
Qed.

Lemma log_tx_proxy a b c d e f0 g h i :
  keeps proxy_view (log_tx a b c d e f0 g h i).
Proof. intros w. reflexivity. Qed.

Lemma log_shadow_proxy a b c d e f0 g h :
  keeps proxy_view (log_shadow a b c d e f0 g h).
Proof. intros w. reflexivity. Qed.

Lemma write_admission_proxy (req : WriteReq) (k : option string) :
  keeps proxy_view (write_admission req k).
Proof.
  unfold write_admission.
  apply keeps_bind.
  { intros w. rewrite get_app_instance_from_key_pure. reflexivity. }
  intros [aid inst]. cbn [fst snd].
  apply keeps_bind; [apply token_bucket_ok_proxy|].
  intros [|]; cbn [negb]; [|apply keeps_raise].
  apply keeps_bind; [apply keeps_gets|].
  intros l2i. destruct (l2i !! point_label req) as [[|c s]|];
    try apply keeps_raise.
  destruct (decide (String c s ∈ cap_write (caps inst))); [apply keeps_ret|].
  apply keeps_bind; [apply log_tx_proxy|]. intros _. apply keeps_raise.
Qed.

Lemma run_enforced_proxy (vlist : list string) aid user iri cls req prev :
  keeps proxy_view (run_enforced vlist aid user iri cls req prev).
Proof.
  induction vlist as [|v rest IH]; cbn [run_enforced]; [apply keeps_ret|].
  destruct (validator_named v); [|apply keeps_raise].
  apply keeps_bind; [apply keeps_gets|].
  intros [[|] reason]; cbn [fst snd]; [exact IH|].
  apply keeps_bind; [apply log_tx_proxy|]. intros _. apply keeps_raise.
Qed.

Lemma run_shadow_proxy (sv : list string) aid user iri cls req prev :
  keeps proxy_view (run_shadow sv aid user iri cls req prev).
Proof.
  induction sv as [|v rest IH]; cbn [run_shadow]; [apply keeps_ret|].
  destruct (validator_named v); [|apply keeps_raise].
  apply keeps_bind; [apply keeps_gets|].
  intros [[|] reason]; cbn [fst snd].
  - apply keeps_bind; [apply keeps_ret|]. intros _. exact IH.
  - apply keeps_bind; [apply log_shadow_proxy|]. intros _. exact IH.
Qed.

Lemma write_guarded_failure_proxy aid inst iri req (w : World) (e : exn) :
  fst (write_guarded aid inst iri req w) = Raise e ->
  proxy_view (snd (write_guarded aid inst iri req w)) = proxy_view w.
Proof.
  unfold write_guarded, bind, gets. cbn [fst snd].
  destruct (get_validators_for_class w _) as [|v vlist] eqn:Hv.
  - intros _. reflexivity.
  - pose proof (run_enforced_proxy (v :: vlist) aid (inst_user inst) iri
                  (default "" (class_of_iri (G w) iri)) req
                  (proxy_read w (point_label req)) w) as He.
    destruct (run_enforced _ _ _ _ _ _ _ w) as [[[]|e1] w1]; cbn [fst snd] in *.
    + pose proof (run_shadow_proxy
                    (get_shadow_validators_for_class w1
                       (default "" (class_of_iri (G w) iri)))
                    aid (inst_user inst) iri
                    (default "" (class_of_iri (G w) iri)) req
                    (proxy_read w (point_label req)) w1) as Hs.
      destruct (run_shadow _ _ _ _ _ _ _ w1) as [[[]|e2] w2]; cbn [fst snd] in *.
      * intros Habs. discriminate Habs.
      * intros _. rewrite Hs. exact He.
    + intros _. exact He.
Qed.

(** C9: a write request that ends in a failure, whichever it is, leaves
    every value stored by the Resource Proxy and the time series as they
    were. *)
Theorem write_failure_leaves_proxy (req : WriteReq) (k : option string)
        (w : World) (e : exn) :
  fst (write req k w) = Raise e ->
  STATE (snd (write req k w)) = STATE w /\
  timeseries (DB (snd (write req k w))) = timeseries (DB w).
Proof.
  intros Hfail.
  assert (proxy_view (snd (write req k w)) = proxy_view w) as Hview.
  { revert Hfail. unfold write, bind.
    pose proof (write_admission_proxy req k w) as Ha.
    destruct (write_admission req k w) as [[[[aid inst] iri]|e1] w1];
      cbn [fst snd] in *.
    - intros Hfail. rewrite <- Ha.
      apply (write_guarded_failure_proxy _ _ _ _ _ e).
      destruct (write_guarded aid inst iri req w1); exact Hfail.
    - intros _. exact Ha. }
  unfold proxy_view in Hview. inversion Hview. split; reflexivity.
Qed.

(** ** The caller's [prev_value] *)

Lemma run_enforced_prev_value (p : option Q) (vlist : list string)
      aid user iri cls req prev (w : World) :
  run_enforced vlist aid user iri cls (with_prev_value p req) prev w =
  run_enforced vlist aid user iri cls req prev w.
Proof.
  induction vlist as [|v rest IH]; cbn [run_enforced]; [reflexivity|].
  destruct (validator_named v) as [f|]; [|reflexivity].
  unfold bind, gets. cbn [with_prev_value point_label value fst snd].
  destruct (f w cls (point_label req) (value req) prev) as [[|] reason];
    cbn [fst snd]; [exact IH|reflexivity].
Qed.

Lemma run_shadow_prev_value (p : option Q) (sv : list string)
      aid user iri cls req prev (w : World) :
  run_shadow sv aid user iri cls (with_prev_value p req) prev w =
  run_shadow sv aid user iri cls req prev w.
Proof.
  revert w. induction sv as [|v rest IH]; intros w; cbn [run_shadow];
    [reflexivity|].
  destruct (validator_named v) as [f|]; [|reflexivity].
  unfold bind, gets. cbn [with_prev_value point_label value fst snd].
  destruct (f w cls (point_label req) (value req) prev) as [[|] reason];
    cbn [fst snd].
  - cbn. apply IH.
  - cbn. apply IH.
Qed.

(** C10: the [prev_value] of a request changes nothing: two requests that
    differ only there give the same response and the same state (values,
    time series, both logs, rate bucket); the previous value the validators
    get is what the Resource Proxy stores for the label. *)
Theorem write_ignores_prev_value (req : WriteReq) (p : option Q)
        (k : option string) (w : World) :
  write (with_prev_value p req) k w = write req k w.
Proof.
  unfold write, bind.
  change (write_admission (with_prev_value p req) k w)
    with (write_admission req k w).
  destruct (write_admission req k w) as [[[[aid inst] iri]|e1] w1];
    [|reflexivity].
  cbn [fst snd]. unfold write_guarded, bind, gets. cbn [fst snd].
  destruct (get_validators_for_class w1 _) as [|v vlist]; [reflexivity|].
  cbn [with_prev_value point_label value].
  rewrite run_enforced_prev_value.
  destruct (run_enforced _ _ _ _ _ req _ w1) as [[[]|e2] w2]; [|reflexivity].
  rewrite run_shadow_prev_value.
  destruct (run_shadow _ _ _ _ _ req _ w2) as [[[]|e3] w3]; reflexivity.
Qed.

(** ** Validator chains *)

Lemma insert_by_position_perm (r : VRow) (l : list VRow) :
  Permutation (r :: l) (insert_by_position r l).
Proof.
  induction l as [|r' l IH]; cbn [insert_by_position]; [reflexivity|].
  destruct (position r <=? position r'); [reflexivity|].
  rewrite perm_swap. apply perm_skip. exact IH.
Qed.

Lemma order_by_position_perm (rows : list VRow) :
  Permutation rows (order_by_position rows).
Proof.
  induction rows as [|r rows IH]; [reflexivity|].
  cbn [order_by_position foldr]. fold (order_by_position rows).
  rewrite <- insert_by_position_perm. apply perm_skip. exact IH.
Qed.

Lemma insert_by_position_sorted (r : VRow) (l : list VRow) :
  StronglySorted by_position l ->
  StronglySorted by_position (insert_by_position r l).
Proof.
  induction l as [|r' l IH]; intros Hs; cbn [insert_by_position].
  - constructor; constructor.
  - destruct (Z.leb_spec (position r) (position r')) as [Hle|Hgt].
    + constructor; [exact Hs|].
      apply StronglySorted_inv in Hs as [_ Hall].
      constructor; [exact Hle|].
      eapply Forall_impl; [exact Hall|].
      intros a Ha. unfold by_position in *. lia.
    + apply StronglySorted_inv in Hs as [Hs Hall].
      constructor; [apply IH; exact Hs|].
      rewrite <- insert_by_position_perm.
      constructor; [unfold by_position; lia|exact Hall].
Qed.

Lemma order_by_position_sorted (rows : list VRow) :
  StronglySorted by_position (order_by_position rows).
Proof.
  induction rows as [|r rows IH]; [constructor|].
  cbn [order_by_position foldr]. fold (order_by_position rows).
  apply insert_by_position_sorted. exact IH.
Qed.

Lemma log_tx_logged actor aid user iri (req : WriteReq) decision reason
      (w : World) :
  log_tx actor aid user "write" iri (point_label req) (Some (value req))
         decision reason w =
  (Return tt,
   logged_tx (write_tx (clock (ticks w)) actor aid user iri req decision reason) w).
Proof. reflexivity. Qed.

Lemma run_enforced_accepts (vlist : list string) aid user iri cls req prev
      (w : World) :
  Forall (accepts w cls req prev) vlist ->
  run_enforced vlist aid user iri cls req prev w = (Return tt, w).
Proof.
  induction 1 as [|v rest (f & Hf & Hok) _ IH]; cbn [run_enforced];
    [reflexivity|].
  rewrite Hf. unfold bind, gets. cbn [fst snd]. rewrite Hok. exact IH.
Qed.

Lemma run_enforced_rejects (pre post : list string) (vname reason : string)
      aid user iri cls req prev (w : World) :
  Forall (accepts w cls req prev) pre ->
  rejects w cls req prev vname reason ->
  run_enforced (pre ++ vname :: post) aid user iri cls req prev w =
  (Raise (HTTPException 400 ("Guard blocked: " +:+ reason)),
   logged_tx (write_tx (clock (ticks w)) "regulator" aid user iri req
                       "deny" reason) w).
Proof.
  intros Hpre (f & Hf & Hno).
  induction Hpre as [|v rest (f' & Hf' & Hok) _ IH];
    cbn [app run_enforced].
  - rewrite Hf. unfold bind, gets. cbn [fst snd]. rewrite Hno. reflexivity.
  - rewrite Hf'. unfold bind, gets. cbn [fst snd]. rewrite Hok. exact IH.
Qed.

(** C5: a write that reaches enforced validation for a class whose
    enforced chain is empty is refused with status 400, and the refusal is
    the one transaction row added: actor ["regulator"], decision ["deny"],
    reason ["no-validators"]; nothing else changes, whatever the value. *)
Theorem empty_chain_fails_closed (req : WriteReq) (k : option string)
        (w w1 : World) (aid iri : string) (inst : Instance) :
  write_admission req k w = (Return (aid, inst, iri), w1) ->
  get_validators_for_class w1 (default "" (class_of_iri (G w1) iri)) = [] ->
  write req k w =
  (Raise (HTTPException 400 "No validators configured"),
   logged_tx (write_tx (clock (ticks w1)) "regulator" aid (inst_user inst)
                       iri req "deny" "no-validators") w1).
Proof.
  intros Hadm Hnone. unfold write, bind. rewrite Hadm.
  cbn [fst snd]. unfold write_guarded, bind, gets. cbn [fst snd].
  rewrite Hnone. reflexivity.
Qed.

(** C6: the enforced chain is the class's rows read in ascending
    position; if the validators before [vname] accept and [vname] rejects
    with [reason], the write is refused with that reason, the one
    transaction row added is the regulator's deny with that reason, and
    nothing after [vname] in the chain matters (whatever it is). *)
Theorem enforced_chain_short_circuits (req : WriteReq) (k : option string)
        (w w1 : World) (aid iri : string) (inst : Instance)
        (pre post : list string) (vname reason : string) :
  let cls := default "" (class_of_iri (G w1) iri) in
  let prev := proxy_read w1 (point_label req) in
  write_admission req k w = (Return (aid, inst, iri), w1) ->
  get_validators_for_class w1 cls = (pre ++ vname :: post) ->
  Forall (accepts w1 cls req prev) pre ->
  rejects w1 cls req prev vname reason ->
  (exists rows : list VRow,
      Permutation (rows_of_class (Str.local_name cls) (validators (DB w1))) rows /\
      StronglySorted by_position rows /\
      map vtype rows = (pre ++ vname :: post)) /\
  write req k w =
  (Raise (HTTPException 400 ("Guard blocked: " +:+ reason)),
   logged_tx (write_tx (clock (ticks w1)) "regulator" aid (inst_user inst)
                       iri req "deny" reason) w1).
Proof.
  intros cls prev Hadm Hchain Hpre Hrej. split.
  - exists (order_by_position
              (rows_of_class (Str.local_name cls) (validators (DB w1)))).
    split; [apply order_by_position_perm|].
    split; [apply order_by_position_sorted|exact Hchain].
  - unfold write, bind. rewrite Hadm. cbn [fst snd].
    unfold write_guarded, bind, gets. cbn [fst snd].
    fold cls. rewrite Hchain.
    destruct (pre ++ vname :: post) as [|v0 l0] eqn:Hl.
    + destruct pre; discriminate Hl.
    + rewrite <- Hl. fold prev.
      rewrite (run_enforced_rejects pre post vname reason); [reflexivity| |];
        assumption.
Qed.

(** The validators read the policy and the constraints, nothing else. *)
Lemma validator_reads (vname : string) (f : Validator) (w w' : World) :
  validator_named vname = Some f ->
  POLICY w = POLICY w' ->
  constraints (DB w) = constraints (DB w') ->
  forall cls label value prev,
    f w cls label value prev = f w' cls label value prev.
Proof.
  unfold validator_named, VALIDATOR_FUNS. intros Hf Hp Hc cls label value prev.
  repeat (apply lookup_insert_Some in Hf as [[_ <-]|[_ Hf]];
          [unfold v_range, v_rate, v_energy_budget, v_comfort_band,
             get_constraints; rewrite ?Hp, ?Hc; reflexivity|]).
  rewrite lookup_empty in Hf. discriminate Hf.
Qed.

Lemma rejections_reads (w w' : World) cls label value prev (sv : list string) :
  POLICY w = POLICY w' ->
  constraints (DB w) = constraints (DB w') ->
  rejections w cls label value prev sv = rejections w' cls label value prev sv.
Proof.
  intros Hp Hc. unfold rejections.
  induction sv as [|v rest IH]; [reflexivity|].
  cbn [flat_map]. rewrite IH. f_equal.
  destruct (validator_named v) as [f|] eqn:Hf; [|reflexivity].
  rewrite (validator_reads v f w w' Hf Hp Hc). reflexivity.
Qed.

Lemma logged_shadow_nil (w : World) : logged_shadow [] w = w.
Proof.
  unfold logged_shadow. cbn [length Nat.add]. rewrite app_nil_r.
  destruct w as [g pf po us il li ap ak st [tx cs vs svs ts sl] tk].
  reflexivity.
Qed.

Lemma logged_shadow_cons (r : ShadowRow) (rows : list ShadowRow) (w : World) :
  logged_shadow rows (logged_shadow [r] w) = logged_shadow (r :: rows) w.
Proof.
  unfold logged_shadow. cbn.
  rewrite <- app_assoc. cbn [app].
  replace (length rows + S (ticks w))%nat with (S (length rows + ticks w))
    by lia.
  reflexivity.
Qed.

Lemma run_shadow_logs (sv : list string) aid user iri cls req prev :
  Forall (fun v => is_Some (validator_named v)) sv ->
  forall w : World,
  exists rows : list ShadowRow,
    run_shadow sv aid user iri cls req prev w =
      (Return tt, logged_shadow rows w) /\
    map shadow_finding rows =
      map (finding_of aid user iri cls req)
          (rejections w cls (point_label req) (value req) prev sv).
Proof.
  induction 1 as [|v rest [f Hf] _ IH]; intros w.
  - exists []. rewrite logged_shadow_nil. split; reflexivity.
  - cbn [run_shadow]. rewrite Hf. unfold bind at 1. unfold gets at 1.
    cbn [fst snd]. unfold rejections. cbn [flat_map].
    fold (rejections w cls (point_label req) (value req) prev rest).
    rewrite Hf. cbn zeta.
    destruct (f w cls (point_label req) (value req) prev) as [[|] reason];
      cbn [fst snd].
    + destruct (IH w) as (rows & Hrun & Hrows).
      exists rows. unfold bind, ret. split; [exact Hrun|exact Hrows].
    + set (r := {| sh_ts := clock (ticks w); sh_app_id := aid;
                   sh_user_id := user; sh_point_iri := iri;
                   sh_point_label := point_label req; sh_value := value req;
                   sh_cls := cls; sh_vtype := v; sh_reason := reason |}).
      destruct (IH (logged_shadow [r] w)) as (rows & Hrun & Hrows).
      exists (r :: rows). split.
      * unfold bind at 1.
        change (log_shadow aid user iri (point_label req) (value req) cls v
                           reason w)
          with (Return tt, logged_shadow [r] w).
        cbn iota. rewrite Hrun, logged_shadow_cons. reflexivity.
      * cbn [map app]. f_equal.
        rewrite Hrows. f_equal. symmetry. apply rejections_reads; reflexivity.
Qed.

(** C7: once the enforced chain has accepted, every validator of the
    shadow chain is evaluated, each rejecting evaluation adds exactly one
    shadow-log row (in chain order, with that validator and its reason),
    and whatever the shadow chain finds the write commits: the value is
    stored, one time-series sample is added, and the one transaction row
    added is the proxy's [allow]. *)
Theorem shadow_chain_never_blocks (req : WriteReq) (k : option string)
        (w w1 : World) (aid iri : string) (inst : Instance) :
  let cls := default "" (class_of_iri (G w1) iri) in
  let prev := proxy_read w1 (point_label req) in
  let sv := get_shadow_validators_for_class w1 cls in
  write_admission req k w = (Return (aid, inst, iri), w1) ->
  get_validators_for_class w1 cls <> [] ->
  Forall (accepts w1 cls req prev) (get_validators_for_class w1 cls) ->
  Forall (fun v => is_Some (validator_named v)) sv ->
  exists (rows : list ShadowRow) (w2 : World),
    write req k w =
      (Return {| resp_ok := true; resp_point := point_label req;
                 resp_value := value req |}, w2) /\
    map shadow_finding rows =
      map (finding_of aid (inst_user inst) iri cls req)
          (rejections w1 cls (point_label req) (value req) prev sv) /\
    shadowlog (DB w2) = (shadowlog (DB w1) ++ rows) /\
    STATE w2 = <[point_label req := value req]> (STATE w1) /\
    timeseries (DB w2) =
      (timeseries (DB w1) ++
       [ {| ts_ts := clock (length rows + ticks w1);
            ts_point_label := point_label req; ts_value := value req |} ]) /\
    txlog (DB w2) =
      (txlog (DB w1) ++
       [ write_tx (clock (S (length rows + ticks w1))) "proxy" aid
                  (inst_user inst) iri req "allow" "ok" ]).
Proof.
  intros cls prev sv Hadm Hne Hacc Hreg.
  destruct (run_shadow_logs sv aid (inst_user inst) iri cls req prev Hreg w1)
    as (rows & Hrun & Hrows).
  exists rows. eexists. split; [|split; [exact Hrows|]].
  - unfold write, bind. rewrite Hadm. cbn [fst snd].
    unfold write_guarded, bind, gets. cbn [fst snd]. fold cls.
    destruct (get_validators_for_class w1 cls) as [|v0 l0] eqn:Hl;
      [contradiction|].
    fold prev. rewrite (run_enforced_accepts _ _ _ _ _ _ _ _ Hacc).
    fold sv. rewrite Hrun. reflexivity.
  - cbn. repeat split; reflexivity.
Qed.

(** ** Rate limiting *)

Lemma quiet_ret {B} (b : B) : quiet (ret b).
Proof. intros w. cbn. repeat split; [discriminate|lia]. Qed.

Lemma quiet_gets {B} (g : World -> B) : quiet (gets g).
Proof. intros w. cbn. repeat split; [discriminate|lia]. Qed.

Lemma quiet_raise {B} (e : exn) : e <> rate_limited -> quiet (@raise B e).
Proof. intros He w. cbn. repeat split; [congruence|lia]. Qed.

Lemma quiet_bind {B C} (c : M B) (k : B -> M C) :
  quiet c -> (forall b, quiet (k b)) -> quiet (bind c k).
Proof.
  intros Hc Hk w. unfold bind.
  destruct (Hc w) as (Ho & Ha & Hk' & Ht).
  destruct (c w) as [[b|e] w1]; cbn [fst snd] in *.
  - destruct (Hk b w1) as (Ho1 & Ha1 & Hk1 & Ht1).
    repeat split; [exact Ho1|congruence|congruence|lia].
  - repeat split; try assumption.
    intros Heq. apply Ho. inversion Heq. reflexivity.
Qed.

Lemma quiet_log_tx a b c d e f0 g h i : quiet (log_tx a b c d e f0 g h i).
Proof. intros w. cbn. repeat split; [discriminate|lia]. Qed.

Lemma quiet_log_shadow a b c d e f0 g h : quiet (log_shadow a b c d e f0 g h).
Proof. intros w. cbn. repeat split; [discriminate|lia]. Qed.

Lemma quiet_proxy_write (label : string) (v : Q) : quiet (proxy_write label v).
Proof. intros w. cbn. repeat split; [discriminate|lia]. Qed.

Lemma quiet_run_enforced (vlist : list string) aid user iri cls req prev :
  quiet (run_enforced vlist aid user iri cls req prev).
Proof.
  induction vlist as [|v rest IH]; cbn [run_enforced]; [apply quiet_ret|].
  destruct (validator_named v); [|apply quiet_raise; discriminate].
  apply quiet_bind; [apply quiet_gets|].
  intros [[|] reason]; cbn [fst snd]; [exact IH|].
  apply quiet_bind; [apply quiet_log_tx|].
  intros _. apply quiet_raise. discriminate.
Qed.

Lemma quiet_run_shadow (sv : list string) aid user iri cls req prev :
  quiet (run_shadow sv aid user iri cls req prev).
Proof.
  induction sv as [|v rest IH]; cbn [run_shadow]; [apply quiet_ret|].
  destruct (validator_named v); [|apply quiet_raise; discriminate].
  apply quiet_bind; [apply quiet_gets|].
  intros [[|] reason]; cbn [fst snd].
  - apply quiet_bind; [apply quiet_ret|]. intros _. exact IH.
  - apply quiet_bind; [apply quiet_log_shadow|]. intros _. exact IH.
Qed.

Lemma quiet_write_guarded aid inst iri req :
  quiet (write_guarded aid inst iri req).
Proof.
  unfold write_guarded.
  apply quiet_bind; [apply quiet_gets|]. intros g.
  apply quiet_bind; [apply quiet_gets|]. intros [|v vlist].
  - apply quiet_bind; [apply quiet_log_tx|].
    intros _. apply quiet_raise. discriminate.
  - apply quiet_bind; [apply quiet_gets|]. intros prev.
    apply quiet_bind; [apply quiet_run_enforced|]. intros _.
    apply quiet_bind; [apply quiet_gets|]. intros sv.
    apply quiet_bind; [apply quiet_run_shadow|]. intros _.
    apply quiet_bind; [apply quiet_proxy_write|]. intros _.
    apply quiet_bind; [apply quiet_log_tx|]. intros _.
    apply quiet_ret.
Qed.

Lemma attempt_in_window (req : WriteReq) (k aid : string) (L t wn : Z)
      (w : World) :
  k <> "" -> aid <> "" ->
  APP_KEYS w !! k = Some aid ->
  bucket_of w aid = Some {| limit := L; tokens := t; win := wn |} ->
  Num.minute_of (clock (ticks w)) = wn ->
  exists (o : result WriteResp) (w' : World),
    write req (Some k) w = (o, w') /\
    APP_KEYS w' = APP_KEYS w /\
    (ticks w <= ticks w')%nat /\
    ((t < L /\ o <> Raise rate_limited /\
      bucket_of w' aid = Some {| limit := L; tokens := t + 1; win := wn |})
     \/
     (L <= t /\ o = Raise rate_limited /\
      bucket_of w' aid = Some {| limit := L; tokens := t; win := wn |})).
Proof.
  intros Hk Haid Hkey Hb Hwin.
  unfold bucket_of in Hb.
  destruct (APPS w !! aid) as [inst|] eqn:Hinst; [|discriminate Hb].
  destruct k as [|c s]; [contradiction|].
  destruct aid as [|c' s']; [contradiction|].
  unfold write, write_admission, get_app_instance_from_key.
  unfold bind at 1 2 3 4. unfold gets at 1 2. cbn [fst snd].
  rewrite Hkey. cbn [fst snd]. rewrite Hinst. cbn [ret fst snd].
  unfold token_bucket_ok, bind at 1 2, time_time. cbn [fst snd].
  rewrite Hb, Hwin. cbn [win limit tokens].
  destruct (decide (wn = wn)) as [_|Hne]; [|contradiction].
  cbn [win limit tokens].
  destruct (t >=? L) eqn:Hge.
  - apply Z.geb_le in Hge.
    eexists _, _. split; [reflexivity|].
    cbn. split; [reflexivity|]. split; [lia|]. right.
    split; [lia|]. split; [reflexivity|].
    unfold bucket_of. cbn. rewrite lookup_insert_eq. reflexivity.
  - assert (t < L) as Hlt.
    { rewrite Z.geb_leb in Hge. apply Z.leb_gt in Hge. exact Hge. }
    unfold bind at 1. unfold modify, ret. cbn [fst snd negb].
    match goal with
    | |- context [bind (gets LABEL2IRI) ?k ?w1] =>
        set (tl := bind (gets LABEL2IRI) k); set (w1' := w1)
    end.
    assert (quiet tl) as Htl.
    { subst tl. apply quiet_bind; [apply quiet_gets|].
      intros l2i.
      destruct (l2i !! point_label req) as [[|c0 s0]|];
        try (apply quiet_raise; discriminate).
      destruct (decide (String c0 s0 ∈ cap_write (caps inst)));
        [apply (quiet_ret (String c' s', inst, String c0 s0))|].
      apply quiet_bind; [apply quiet_log_tx|].
      intros _. apply quiet_raise. discriminate. }
    pose proof (quiet_bind tl
                  (fun a => write_guarded (fst (fst a)) (snd (fst a)) (snd a) req)
                  Htl (fun a => quiet_write_guarded _ _ _ _) w1') as Hq.
    unfold bind in Hq.
    destruct (tl w1') as [r w2].
    match type of Hq with
    | context [fst ?x] => destruct x as [o w3] eqn:Hrun
    end.
    cbn [fst snd] in Hq. destruct Hq as (Ho & Ha & Hks & Htk).
    exists o, w3. split; [reflexivity|].
    split; [rewrite Hks; reflexivity|].
    split; [subst w1'; cbn [ticks with_APPS with_ticks] in Htk; lia|].
    left. split; [exact Hlt|]. split; [exact Ho|].
    unfold bucket_of. rewrite Ha. subst w1'. cbn [APPS with_APPS with_ticks].
    rewrite lookup_insert_eq. reflexivity.
Qed.

Lemma attempts_in_window (k aid : string) (L wn : Z) :
  k <> "" -> aid <> "" ->
  forall (reqs : list WriteReq) (t : Z) (w : World),
    APP_KEYS w !! k = Some aid ->
    bucket_of w aid = Some {| limit := L; tokens := t; win := wn |} ->
    (forall n, (ticks w <= n)%nat -> Num.minute_of (clock n) = wn) ->
    t + Z.of_nat (length reqs) <= L ->
    exists (outs : list (result WriteResp)) (w' : World),
      write_attempts (Some k) reqs w = (outs, w') /\
      Forall (fun o => o <> Raise rate_limited) outs /\
      APP_KEYS w' = APP_KEYS w /\
      (ticks w <= ticks w')%nat /\
      bucket_of w' aid =
        Some {| limit := L; tokens := t + Z.of_nat (length reqs); win := wn |}.
Proof.
  intros Hk Haid. induction reqs as [|req rest IH]; intros t w Hkey Hb Hclock Hlen.
  - exists [], w. cbn [length Z.of_nat]. rewrite Z.add_0_r.
    repeat split; [constructor|lia|exact Hb].
  - destruct (attempt_in_window req k aid L t wn w Hk Haid Hkey Hb
                (Hclock _ (Nat.le_refl _)))
      as (o & w1 & Hrun & Hkeys & Htk & [(Hlt & Ho & Hb1)|(Hge & _)]).
    2:{ cbn [length] in Hlen. lia. }
    destruct (IH (t + 1) w1) as (outs & w' & Hrest & Hall & Hkeys' & Htk' & Hb');
      [rewrite Hkeys; exact Hkey|exact Hb1| |cbn [length] in Hlen; lia|].
    { intros n Hn. apply Hclock. lia. }
    exists (o :: outs), w'. cbn [write_attempts]. rewrite Hrun, Hrest.
    split; [reflexivity|]. split; [constructor; assumption|].
    split; [congruence|]. split; [lia|].
    rewrite Hb'. do 2 f_equal. cbn [length]. lia.
Qed.

(** C4: an instance whose bucket is fresh in the current minute
    ([tokens = 0], limit [N]) gets its first [N] write attempts of that
    minute past the rate gate, each taking one token, whatever happens to
    them afterwards; the attempt after those is refused with 429 and takes
    no token.  When the minute of the clock differs from the bucket's, the
    bucket counts again from zero. *)
Theorem rate_limit_window (k aid : string) (inst : Instance) (b : Bucket)
        (reqs : list WriteReq) (w : World) :
  k <> "" -> aid <> "" ->
  APP_KEYS w !! k = Some aid ->
  APPS w !! aid = Some inst ->
  rate inst = Some b ->
  tokens b = 0 ->
  (forall n, (ticks w <= n)%nat -> Num.minute_of (clock n) = win b) ->
  Z.of_nat (length reqs) <= limit b ->
  (exists (outs : list (result WriteResp)) (w' : World),
      write_attempts (Some k) reqs w = (outs, w') /\
      Forall (fun o => o <> Raise rate_limited) outs /\
      bucket_of w' aid =
        Some {| limit := limit b; tokens := Z.of_nat (length reqs);
                win := win b |} /\
      (Z.of_nat (length reqs) = limit b ->
       forall req : WriteReq,
       exists w'' : World,
         write req (Some k) w' = (Raise rate_limited, w'') /\
         bucket_of w'' aid = bucket_of w' aid)) /\
  (forall (aid0 : string) (inst0 : Instance) (b0 : Bucket) (w0 : World),
      rate inst0 = Some b0 ->
      Num.minute_of (clock (ticks w0)) <> win b0 ->
      token_bucket_ok aid0 inst0 w0 =
      token_bucket_ok aid0
        (with_rate {| limit := limit b0; tokens := 0;
                      win := Num.minute_of (clock (ticks w0)) |} inst0) w0).
Proof.
  intros Hk Haid Hkey Hinst Hrate Htok Hclock Hlen. split.
  - assert (bucket_of w aid =
            Some {| limit := limit b; tokens := 0; win := win b |}) as Hb.
    { unfold bucket_of. rewrite Hinst, Hrate. destruct b as [L t wn].
      cbn in Htok. subst t. reflexivity. }
    destruct (attempts_in_window k aid (limit b) (win b) Hk Haid reqs 0 w
                Hkey Hb Hclock ltac:(lia))
      as (outs & w' & Hrun & Hall & Hkeys & Htk & Hb').
    rewrite Z.add_0_l in Hb'.
    exists outs, w'. split; [exact Hrun|]. split; [exact Hall|].
    split; [exact Hb'|].
    intros Hfull req.
    destruct (attempt_in_window req k aid (limit b)
                (Z.of_nat (length reqs)) (win b) w' Hk Haid)
      as (o & w'' & Hrun' & _ & _ & [(Hlt & _)|(_ & Ho & Hb'')]).
    + rewrite Hkeys. exact Hkey.
    + exact Hb'.
    + apply Hclock. exact Htk.
    + lia.
    + exists w''. subst o. split; [exact Hrun'|]. rewrite Hb'', Hb'. reflexivity.
  - intros aid0 inst0 b0 w0 Hr Hne.
    unfold token_bucket_ok, bind at 1, time_time. cbn [fst snd].
    unfold bind at 3. cbn [fst snd rate with_rate]. rewrite Hr.
    destruct (decide (Num.minute_of (clock (ticks w0)) = win b0));
      [contradiction|].
    cbn [win limit tokens].
    destruct (decide (Num.minute_of (clock (ticks w0)) =
                      Num.minute_of (clock (ticks w0)))); [|contradiction].
    reflexivity.
Qed.

(** ** Promotion *)

Lemma insert_by_position_app (r : VRow) (s l2 : list VRow) :
  Forall (fun h => position r <= position h) l2 ->
  insert_by_position r (s ++ l2) = insert_by_position r s ++ l2.
Proof.
  intros Hle. induction s as [|a s IH]; cbn [app insert_by_position].
  - destruct Hle as [|h l2 Hh _]; [reflexivity|].
    cbn [insert_by_position].
    destruct (Z.leb_spec (position r) (position h)); [reflexivity|lia].
  - destruct (position r <=? position a); [reflexivity|].
    rewrite IH. reflexivity.
Qed.

Lemma order_by_position_id (l : list VRow) :
  StronglySorted by_position l -> order_by_position l = l.
Proof.
  induction 1 as [|a l _ IH Hall]; [reflexivity|].
  cbn [order_by_position foldr]. fold (order_by_position l). rewrite IH.
  destruct Hall as [|h l Hh _]; [reflexivity|].
  cbn [insert_by_position]. unfold by_position in Hh.
  destruct (Z.leb_spec (position a) (position h)); [reflexivity|lia].
Qed.

Lemma order_by_position_app (l1 l2 : list VRow) :
  StronglySorted by_position l2 ->
  Forall (fun r => Forall (fun h => position r <= position h) l2) l1 ->
  order_by_position (l1 ++ l2) = order_by_position l1 ++ l2.
Proof.
  intros Hs. induction 1 as [|a l1 Ha _ IH]; cbn [app].
  - apply order_by_position_id. exact Hs.
  - cbn [order_by_position foldr]. fold (order_by_position (l1 ++ l2)).
    fold (order_by_position l1). rewrite IH.
    apply insert_by_position_app. exact Ha.
Qed.

Lemma max_position_bound (rows : list VRow) :
  match max_position rows with
  | Some m => Forall (fun r => position r <= m) rows
  | None => rows = []
  end.
Proof.
  induction rows as [|r rows IH]; [reflexivity|].
  cbn [max_position foldr]. fold (max_position rows).
  destruct (max_position rows) as [m|].
  - constructor; [lia|].
    eapply Forall_impl; [exact IH|]. cbn. intros a Ha. lia.
  - subst rows. constructor; [lia|constructor].
Qed.

(** The rows [admin_promote_shadow] inserts, from position [k] on. *)
Lemma promoted_rows_sorted (local : string) (sv : list string) (k : Z) :
  let new := imap (fun i v => {| resource_class := local;
                                 position := k + Z.of_nat i; vtype := v |}) sv in
  StronglySorted by_position new /\
  Forall (fun r => k <= position r /\ resource_class r = local) new /\
  map vtype new = sv.
Proof.
  revert k. induction sv as [|v sv IH]; intros k; cbn zeta.
  - split; [constructor|]. split; [constructor|reflexivity].
  - rewrite imap_cons.
    destruct (IH (k + 1)) as (Hs & Hall & Hm). cbn zeta in Hs, Hall, Hm.
    assert (imap ((fun i v0 => {| resource_class := local;
                                  position := k + Z.of_nat i; vtype := v0 |}) ∘ S) sv
            = imap (fun i v0 => {| resource_class := local;
                                   position := k + 1 + Z.of_nat i; vtype := v0 |}) sv)
      as ->.
    { apply imap_ext. intros i x _. cbn. f_equal. lia. }
    split; [|split].
    + constructor; [exact Hs|].
      eapply Forall_impl; [exact Hall|].
      intros a [Ha _]. unfold by_position. cbn. lia.
    + constructor; [cbn; split; [lia|reflexivity]|].
      eapply Forall_impl; [exact Hall|]. cbn. intros a [Ha Hc]. split; [lia|exact Hc].
    + cbn [map vtype]. rewrite Hm. reflexivity.
Qed.

(** With equal positions read in rowid order, promotion gives the old chain
    followed by the shadow chain for every table; the positions of the
    promoted rows are above all the old ones unless the old maximum is 0. *)
Lemma promote_shadow_appends (cls : string) (w : World) :
  let local := Str.local_name cls in
  let old := rows_of_class local (validators (DB w)) in
  let sv := select_vtypes local (shadow_validators (DB w)) in
  sv <> [] ->
  exists new : list VRow,
    admin_promote_shadow cls w =
      (Return {| promote_ok := true; promoted := sv; promoted_class := local |},
       with_DB (with_validators (validators (DB w) ++ new) (DB w)) w) /\
    map vtype new = sv /\
    select_vtypes local (validators (DB w) ++ new) =
      (select_vtypes local (validators (DB w)) ++ sv) /\
    (max_position old <> Some 0 ->
     Forall (fun n => Forall (fun r => position r < position n) old) new).
Proof.
  intros local old sv Hsv.
  set (base := py_or (max_position old) (-1)).
  set (new := imap (fun i v => {| resource_class := local;
                                  position := base + 1 + Z.of_nat i;
                                  vtype := v |}) sv).
  destruct (promoted_rows_sorted local sv (base + 1)) as (Hs & Hall & Hm).
  cbn zeta in Hs, Hall, Hm. fold new in Hs, Hall, Hm.
  pose proof (max_position_bound old) as Hmax.
  exists new. split; [|split; [exact Hm|split]].
  - unfold admin_promote_shadow, bind, gets. cbn [fst snd].
    fold local. fold sv. destruct sv as [|v0 sv0] eqn:Hsv0; [contradiction|].
    reflexivity.
  - unfold select_vtypes, rows_of_class. rewrite filter_app.
    assert (filter (fun r => resource_class r = local) new = new) as ->.
    { clear -Hall. induction Hall as [|a l [_ Ha] _ IH]; [reflexivity|].
      rewrite filter_cons. destruct (decide (resource_class a = local));
        [rewrite IH; reflexivity|contradiction]. }
    fold (rows_of_class local (validators (DB w))). fold old.
    rewrite order_by_position_app, map_app, Hm; [reflexivity|exact Hs|].
    subst base. unfold py_or in Hall.
    destruct (max_position old) as [m|].
    + eapply Forall_impl; [exact Hmax|]. cbn. intros r Hr.
      eapply Forall_impl; [exact Hall|]. cbn. intros n [Hn _].
      destruct (Z.eqb_spec m 0); lia.
    + rewrite Hmax. constructor.
  - intros Hnz. subst base. unfold py_or in Hall.
    eapply Forall_impl; [exact Hall|]. cbn. intros n [Hn _].
    destruct (max_position old) as [m|].
    + eapply Forall_impl; [exact Hmax|]. cbn. intros r Hr.
      destruct (Z.eqb_spec m 0); [congruence|lia].
    + rewrite Hmax. constructor.
Qed.

(** ** What a successful admission and a successful write imply *)

Lemma write_admission_inv (req : WriteReq) (k : option string) (w w1 : World)
      (aid iri : string) (inst : Instance) :
  write_admission req k w = (Return (aid, inst, iri), w1) ->
  exists (k0 : string) (b : Bucket),
    k = Some k0 /\ k0 <> "" /\ aid <> "" /\ iri <> "" /\
    APP_KEYS w !! k0 = Some aid /\
    APPS w !! aid = Some inst /\
    LABEL2IRI w !! point_label req = Some iri /\
    iri ∈ cap_write (caps inst) /\
    w1 = with_APPS (<[aid := with_rate b inst]> (APPS w))
                   (with_ticks (S (ticks w)) w).
Proof.
  unfold write_admission, get_app_instance_from_key.
  destruct k as [[|c s]|]; try discriminate.
  unfold bind at 1 2 3 4. unfold gets at 1 2. cbn [fst snd].
  destruct (APP_KEYS w !! String c s) as [[|c' s']|] eqn:Hkey; try discriminate.
  cbn [fst snd].
  destruct (APPS w !! String c' s') as [inst0|] eqn:Hinst; try discriminate.
  cbn [ret fst snd].
  unfold token_bucket_ok, bind at 1 2, time_time. cbn [fst snd].
  match goal with
  | |- context [if tokens ?bk >=? limit ?bk then _ else _] =>
      set (b0 := bk); destruct (tokens b0 >=? limit b0)
  end.
  - cbn. discriminate.
  - unfold bind at 1. unfold modify, ret. cbn [fst snd negb].
    unfold bind at 1, gets. cbn [fst snd LABEL2IRI with_APPS with_ticks].
    destruct (LABEL2IRI w !! point_label req) as [[|c0 s0]|] eqn:Hl;
      try discriminate.
    destruct (decide (String c0 s0 ∈ cap_write (caps inst0))) as [Hcap|Hcap].
    + intros Heq. inversion Heq. subst.
      eexists (String c s), _. repeat split; try discriminate; try eassumption.
    + cbn. discriminate.
Qed.

Lemma run_enforced_return_inv (vlist : list string) aid user iri cls req prev
      (w w' : World) :
  run_enforced vlist aid user iri cls req prev w = (Return tt, w') ->
  Forall (accepts w cls req prev) vlist /\ w' = w.
Proof.
  induction vlist as [|v rest IH]; cbn [run_enforced].
  - intros Heq. inversion Heq. split; [constructor|reflexivity].
  - destruct (validator_named v) as [f|] eqn:Hf; [|discriminate].
    unfold bind at 1, gets. cbn [fst snd].
    destruct (f w cls (point_label req) (value req) prev) as [[|] reason] eqn:Hr;
      cbn [fst snd].
    + intros Hrest. destruct (IH Hrest) as [Hall ->].
      split; [|reflexivity]. constructor; [|exact Hall].
      exists f. rewrite Hr. split; [exact Hf|reflexivity].
    + cbn. discriminate.
Qed.

Lemma run_shadow_return_inv (sv : list string) aid user iri cls req prev
      (w w' : World) :
  run_shadow sv aid user iri cls req prev w = (Return tt, w') ->
  Forall (fun v => is_Some (validator_named v)) sv.
Proof.
  revert w. induction sv as [|v rest IH]; intros w; cbn [run_shadow].
  - intros _. constructor.
  - destruct (validator_named v) as [f|] eqn:Hf; [|discriminate].
    unfold bind at 1, gets. cbn [fst snd]. unfold bind at 1.
    destruct (f w cls (point_label req) (value req) prev) as [[|] reason];
      cbn [fst snd].
    + cbn -[validator_named]. intros Hrest.
      constructor; [exists f; exact Hf|]. exact (IH _ Hrest).
    + cbn -[validator_named]. intros Hrest.
      constructor; [exists f; exact Hf|]. exact (IH _ Hrest).
Qed.

Lemma write_success_inv (req : WriteReq) (k : option string) (w w' : World)
      (r : WriteResp) :
  write req k w = (Return r, w') ->
  exists (aid iri : string) (inst : Instance) (w1 : World)
         (rows : list ShadowRow),
    write_admission req k w = (Return (aid, inst, iri), w1) /\
    let cls := default "" (class_of_iri (G w1) iri) in
    let prev := proxy_read w1 (point_label req) in
    get_validators_for_class w1 cls <> [] /\
    Forall (accepts w1 cls req prev) (get_validators_for_class w1 cls) /\
    r = {| resp_ok := true; resp_point := point_label req;
           resp_value := value req |} /\
    STATE w' = <[point_label req := value req]> (STATE w1) /\
    APPS w' = APPS w1 /\ APP_KEYS w' = APP_KEYS w1 /\
    LABEL2IRI w' = LABEL2IRI w1 /\
    shadowlog (DB w') = shadowlog (DB w1) ++ rows /\
    timeseries (DB w') =
      timeseries (DB w1) ++
      [ {| ts_ts := clock (length rows + ticks w1);
           ts_point_label := point_label req; ts_value := value req |} ] /\
    txlog (DB w') =
      txlog (DB w1) ++
      [ write_tx (clock (S (length rows + ticks w1))) "proxy" aid
                 (inst_user inst) iri req "allow" "ok" ].
Proof.
  unfold write, bind at 1.
  destruct (write_admission req k w) as [[[[aid inst] iri]|e] w1] eqn:Hadm;
    [|discriminate].
  cbn [fst snd]. intros Hrun.
  exists aid, iri, inst, w1.
  unfold write_guarded, bind at 1 2, gets at 1 2 in Hrun. cbn [fst snd] in Hrun.
  destruct (get_validators_for_class w1 _) as [|v0 l0] eqn:Hchain.
  { cbn in Hrun. discriminate Hrun. }
  unfold bind at 1 2, gets at 1 in Hrun. cbn [fst snd] in Hrun.
  destruct (run_enforced _ _ _ _ _ _ _ w1) as [[[]|e1] w2] eqn:Henf;
    [|discriminate Hrun].
  apply run_enforced_return_inv in Henf as [Hacc ->].
  unfold bind at 1 2, gets at 1 in Hrun. cbn [fst snd] in Hrun.
  destruct (run_shadow _ _ _ _ _ _ _ w1) as [[[]|e2] w3] eqn:Hsh;
    [|discriminate Hrun].
  pose proof (run_shadow_return_inv _ _ _ _ _ _ _ _ _ Hsh) as Hreg.
  destruct (run_shadow_logs _ aid (inst_user inst) iri
              (default "" (class_of_iri (G w1) iri)) req
              (proxy_read w1 (point_label req)) Hreg w1) as (rows & Hsh' & _).
  rewrite Hsh' in Hsh. inversion Hsh. subst w3.
  cbn in Hrun. inversion Hrun. subst.
  exists rows. split; [reflexivity|]. cbn zeta.
  split; [discriminate|]. split; [exact Hacc|].
  cbn. repeat split; reflexivity.
Qed.

Lemma accepts_reads (w w' : World) cls req prev (v : string) :
  POLICY w = POLICY w' ->
  constraints (DB w) = constraints (DB w') ->
  accepts w cls req prev v -> accepts w' cls req prev v.
Proof.
  intros Hp Hc (f & Hf & Hok). exists f. split; [exact Hf|].
  rewrite <- (validator_reads v f w w' Hf Hp Hc). exact Hok.
Qed.



(** X1: a write that returns a response was made under a key of a
    registered instance that holds the write capability for the point, the
    enforced chain of the point's class was not empty, every validator of
    that chain accepted the value against the value stored before, and the
    value is what the Resource Proxy stores afterwards. *)
Theorem write_commits_only_accepted (req : WriteReq) (k : option string)
        (w w' : World) (r : WriteResp) :
  write req k w = (Return r, w') ->
  exists (k0 aid iri : string) (inst : Instance),
    k = Some k0 /\
    APP_KEYS w !! k0 = Some aid /\
    APPS w !! aid = Some inst /\
    LABEL2IRI w !! point_label req = Some iri /\
    iri ∈ cap_write (caps inst) /\
    get_validators_for_class w (default "" (class_of_iri (G w) iri)) <> [] /\
    Forall (accepts w (default "" (class_of_iri (G w) iri)) req
                    (proxy_read w (point_label req)))
           (get_validators_for_class w (default "" (class_of_iri (G w) iri))) /\
    STATE w' !! point_label req = Some (value req).
Proof.
  intros Hrun.
  destruct (write_success_inv _ _ _ _ _ Hrun)
    as (aid & iri & inst & w1 & rows & Hadm & Hne & Hacc & _ & Hst & _).
  destruct (write_admission_inv _ _ _ _ _ _ _ Hadm)
    as (k0 & b & -> & _ & _ & _ & Hkey & Hinst & Hl & Hcap & ->).
  exists k0, aid, iri, inst. repeat split; try assumption.
  - eapply Forall_impl; [exact Hacc|]. intros v Hv.
    eapply accepts_reads; [| |exact Hv]; reflexivity.
  - rewrite Hst. apply lookup_insert_eq.
Qed.


(** ** Which rejections leave a record *)

Section Steps.
Context (R : World -> World -> Prop) `{!PreOrder R}.

Lemma steps_ret {B} (b : B) : steps R (ret b).
Proof. intros w. cbn. reflexivity. Qed.

Lemma steps_raise {B} (e : exn) : steps R (@raise B e).
Proof. intros w. cbn. reflexivity. Qed.

Lemma steps_gets {B} (g : World -> B) : steps R (gets g).
Proof. intros w. cbn. reflexivity. Qed.

Lemma steps_bind {B C} (c : M B) (k : B -> M C) :
  steps R c -> (forall b, steps R (k b)) -> steps R (bind c k).
Proof.
  intros Hc Hk w. unfold bind. specialize (Hc w).
  destruct (c w) as [[b|e] w1]; cbn [fst snd] in *; [|exact Hc].
  etransitivity; [exact Hc|apply Hk].
Qed.
End Steps.

Lemma raises_only_bind {B C} (P : exn -> Prop) (c : M B) (k : B -> M C) :
  raises_only P c -> (forall b, raises_only P (k b)) -> raises_only P (bind c k).
Proof.
  intros Hc Hk w e. unfold bind. specialize (Hc w).
  destruct (c w) as [[b|e1] w1]; cbn [fst snd] in *.
  - apply Hk.
  - intros Heq. inversion Heq. subst. apply Hc. reflexivity.
Qed.

Lemma raises_only_total {B} (P : exn -> Prop) (c : M B) :
  (forall w, exists b, fst (c w) = Return b) -> raises_only P c.
Proof. intros Hc w e He. destruct (Hc w) as [b Hb]. congruence. Qed.

Lemma raises_only_raise {B} (P : exn -> Prop) (e : exn) :
  P e -> raises_only P (@raise B e).
Proof. intros He w e' Heq. inversion Heq. subst. exact He. Qed.

Lemma run_enforced_raises (vlist : list string) aid user iri cls req prev :
  raises_only policy_or_key_error
              (run_enforced vlist aid user iri cls req prev).
Proof.
  induction vlist as [|v rest IH]; cbn [run_enforced].
  - apply raises_only_total. intros w. eexists. reflexivity.
  - destruct (validator_named v).
    + apply raises_only_bind.
      * apply raises_only_total. intros w. eexists. reflexivity.
      * intros [[|] reason]; cbn [fst snd]; [exact IH|].
        apply raises_only_bind.
        -- apply raises_only_total. intros w. eexists. reflexivity.
        -- intros _. apply raises_only_raise. left. eexists. reflexivity.
    + apply raises_only_raise. right. eexists. reflexivity.
Qed.

Lemma run_shadow_raises (sv : list string) aid user iri cls req prev :
  raises_only policy_or_key_error
              (run_shadow sv aid user iri cls req prev).
Proof.
  induction sv as [|v rest IH]; cbn [run_shadow].
  - apply raises_only_total. intros w. eexists. reflexivity.
  - destruct (validator_named v).
    + apply raises_only_bind.
      * apply raises_only_total. intros w. eexists. reflexivity.
      * intros [[|] reason]; cbn [fst snd]; apply raises_only_bind;
          try exact (fun _ => IH);
          apply raises_only_total; intros w; eexists; reflexivity.
    + apply raises_only_raise. right. eexists. reflexivity.
Qed.

Lemma write_guarded_raises aid inst iri req :
  raises_only policy_or_key_error (write_guarded aid inst iri req).
Proof.
  unfold write_guarded.
  apply raises_only_bind;
    [apply raises_only_total; intros w; eexists; reflexivity|]. intros g.
  apply raises_only_bind;
    [apply raises_only_total; intros w; eexists; reflexivity|].
  intros [|v vlist].
  - apply raises_only_bind;
      [apply raises_only_total; intros w; eexists; reflexivity|].
    intros _. apply raises_only_raise. left. eexists. reflexivity.
  - apply raises_only_bind;
      [apply raises_only_total; intros w; eexists; reflexivity|]. intros prev.
    apply raises_only_bind; [apply run_enforced_raises|]. intros _.
    apply raises_only_bind;
      [apply raises_only_total; intros w; eexists; reflexivity|]. intros sv.
    apply raises_only_bind; [apply run_shadow_raises|]. intros _.
    apply raises_only_bind;
      [apply raises_only_total; intros w; eexists; reflexivity|]. intros _.
    apply raises_only_bind;
      [apply raises_only_total; intros w; eexists; reflexivity|]. intros _.
    apply raises_only_total. intros w. eexists. reflexivity.
Qed.

(** The six ways [write_admission] can fail, and what each has changed. *)
Lemma write_admission_failure (req : WriteReq) (k : option string)
      (w w' : World) (e : exn) :
  write_admission req k w = (Raise e, w') ->
  (w' = w /\
   (e = HTTPException 401 "Missing X-App-Key" \/
    e = HTTPException 403 "Invalid X-App-Key" \/
    exists a, e = KeyError a)) \/
  (DB w' = DB w /\ STATE w' = STATE w /\
   (e = HTTPException 429 "Write rate limit exceeded" \/
    e = HTTPException 404 "Unknown point")) \/
  (e = HTTPException 403 "No write capability" /\
   exists row, DB w' = with_txlog (txlog (DB w) ++ [row]) (DB w)).
Proof.
  unfold write_admission, get_app_instance_from_key.
  destruct k as [[|c s]|].
  - cbn. intros Heq. inversion Heq. left. split; [reflexivity|]. left. reflexivity.
  - unfold bind at 1 2 3 4. unfold gets at 1 2. cbn [fst snd].
    destruct (APP_KEYS w !! String c s) as [[|c' s']|] eqn:Hkey.
    + cbn. intros Heq. inversion Heq. left. split; [reflexivity|].
      right. left. reflexivity.
    + cbn [fst snd].
      destruct (APPS w !! String c' s') as [inst0|] eqn:Hinst.
      * cbn [ret fst snd].
        unfold token_bucket_ok, bind at 1 2, time_time. cbn [fst snd].
        match goal with
        | |- context [if tokens ?bk >=? limit ?bk then _ else _] =>
            set (b0 := bk); destruct (tokens b0 >=? limit b0)
        end.
        -- cbn. intros Heq. inversion Heq. right. left.
           split; [reflexivity|]. split; [reflexivity|]. left. reflexivity.
        -- unfold bind at 1. unfold modify, ret. cbn [fst snd negb].
           unfold bind at 1, gets. cbn [fst snd LABEL2IRI with_APPS with_ticks].
           destruct (LABEL2IRI w !! point_label req) as [[|c0 s0]|] eqn:Hl.
           ++ cbn. intros Heq. inversion Heq. right. left.
              split; [reflexivity|]. split; [reflexivity|]. right. reflexivity.
           ++ destruct (decide (String c0 s0 ∈ cap_write (caps inst0))).
              ** cbn. discriminate.
              ** cbn. intros Heq. inversion Heq. right. right.
                 split; [reflexivity|]. eexists. reflexivity.
           ++ cbn. intros Heq. inversion Heq. right. left.
              split; [reflexivity|]. split; [reflexivity|]. right. reflexivity.
      * cbn. intros Heq. inversion Heq. left. split; [reflexivity|].
        right. right. eexists. reflexivity.
    + cbn. intros Heq. inversion Heq. left. split; [reflexivity|].
      right. left. reflexivity.
  - cbn. intros Heq. inversion Heq. left. split; [reflexivity|]. left. reflexivity.
Qed.

(** X3: a write refused as unauthenticated (401), under an unknown key
    (403 Invalid X-App-Key), as rate limited (429) or for an unknown point
    (404) leaves no record: the database and the stored values are as
    before.  The first two change nothing at all; the last two have taken a
    token. *)
Theorem unrecorded_rejections (req : WriteReq) (k : option string)
        (w : World) (code : Z) (detail : string) :
  fst (write req k w) = Raise (HTTPException code detail) ->
  code = 401 \/ code = 404 \/ code = 429 \/
  (code = 403 /\ detail = "Invalid X-App-Key") ->
  DB (snd (write req k w)) = DB w /\
  STATE (snd (write req k w)) = STATE w /\
  (code = 401 \/ code = 403 -> snd (write req k w) = w).
Proof.
  unfold write, bind.
  pose proof (write_admission_failure req k w) as Hadm.
  destruct (write_admission req k w) as [[[[aid inst] iri]|e1] w1];
    cbn [fst snd] in *.
  - intros Hraise Hcode.
    pose proof (write_guarded_raises aid inst iri req w1 _ Hraise) as [[d Hd]|[a Ha]].
    + inversion Hd. subst. exfalso.
      destruct Hcode as [?|[?|[?|[? _]]]]; discriminate.
    + discriminate Ha.
  - intros Hraise Hcode. inversion Hraise. subst e1.
    destruct (Hadm _ _ eq_refl) as [[-> He]|[(Hdb & Hst & He)|[He _]]].
    + repeat split; reflexivity.
    + split; [exact Hdb|]. split; [exact Hst|].
      intros Hc. exfalso.
      destruct He as [He|He]; inversion He; subst;
        destruct Hc as [?|?]; discriminate.
    + inversion He. subst. exfalso.
      destruct Hcode as [?|[?|[?|[_ ?]]]]; discriminate.
Qed.

(** ** What the request handlers leave alone *)

Lemma grows_preorder : PreOrder grows.
Proof.
  split.
  - intros w. unfold grows, db_grows. repeat split; reflexivity.
  - intros w1 w2 w3 (H1 & H2 & H3 & H4 & H5 & H6) (K1 & K2 & K3 & K4 & K5 & K6).
    unfold grows, db_grows. repeat split; try (etransitivity; eassumption);
      congruence.
Qed.

Lemma grows_log_tx a b c d e f0 g h i : steps grows (log_tx a b c d e f0 g h i).
Proof.
  intros w. unfold grows, db_grows. cbn.
  repeat split; try reflexivity. apply prefix_app_r. reflexivity.
Qed.

Lemma grows_log_shadow a b c d e f0 g h : steps grows (log_shadow a b c d e f0 g h).
Proof.
  intros w. unfold grows, db_grows. cbn.
  repeat split; try reflexivity. apply prefix_app_r. reflexivity.
Qed.

Lemma grows_proxy_write (label : string) (v : Q) : steps grows (proxy_write label v).
Proof.
  intros w. unfold grows, db_grows. cbn.
  repeat split; try reflexivity. apply prefix_app_r. reflexivity.
Qed.

Lemma grows_same_db {B} (c : M B) :
  (forall w, DB (snd (c w)) = DB w) -> steps grows c.
Proof.
  intros Hc w. unfold grows. rewrite Hc. apply grows_preorder.
Qed.

Lemma token_bucket_ok_db (aid : string) (inst : Instance) (w : World) :
  DB (snd (token_bucket_ok aid inst w)) = DB w.
Proof.
  unfold token_bucket_ok, bind, time_time. cbn.
  match goal with |- context [if ?b then _ else _] => destruct b end;
    reflexivity.
Qed.

Lemma grows_run_enforced (vlist : list string) aid user iri cls req prev :
  steps grows (run_enforced vlist aid user iri cls req prev).
Proof.
  pose proof grows_preorder.
  induction vlist as [|v rest IH]; cbn [run_enforced]; [apply steps_ret; exact _|].
  destruct (validator_named v); [|apply steps_raise; exact _].
  apply steps_bind; [exact _|apply steps_gets; exact _|].
  intros [[|] reason]; cbn [fst snd]; [exact IH|].
  apply steps_bind; [exact _|apply grows_log_tx|].
  intros _. apply steps_raise. exact _.
Qed.

Lemma grows_run_shadow (sv : list string) aid user iri cls req prev :
  steps grows (run_shadow sv aid user iri cls req prev).
Proof.
  pose proof grows_preorder.
  induction sv as [|v rest IH]; cbn [run_shadow]; [apply steps_ret; exact _|].
  destruct (validator_named v); [|apply steps_raise; exact _].
  apply steps_bind; [exact _|apply steps_gets; exact _|].
  intros [[|] reason]; cbn [fst snd].
  - apply steps_bind; [exact _|apply steps_ret; exact _|]. intros _. exact IH.
  - apply steps_bind; [exact _|apply grows_log_shadow|]. intros _. exact IH.
Qed.

Lemma grows_write (req : WriteReq) (k : option string) :
  steps grows (write req k).
Proof.
  pose proof grows_preorder.
  unfold write. apply steps_bind; [exact _| |].
  - unfold write_admission.
    apply steps_bind; [exact _| |].
    { apply grows_same_db. intros w.
      rewrite get_app_instance_from_key_pure. reflexivity. }
    intros [aid inst]. cbn [fst snd].
    apply steps_bind; [exact _| |].
    { apply grows_same_db. apply token_bucket_ok_db. }
    intros [|]; cbn [negb]; [|apply steps_raise; exact _].
    apply steps_bind; [exact _|apply steps_gets; exact _|].
    intros l2i. destruct (l2i !! point_label req) as [[|c s]|];
      try (apply steps_raise; exact _).
    destruct (decide (String c s ∈ cap_write (caps inst)));
      [apply steps_ret; exact _|].
    apply steps_bind; [exact _|apply grows_log_tx|].
    intros _. apply steps_raise. exact _.
  - intros [[aid inst] iri]. cbn [fst snd]. unfold write_guarded.
    apply steps_bind; [exact _|apply steps_gets; exact _|]. intros g.
    apply steps_bind; [exact _|apply steps_gets; exact _|]. intros [|v vlist].
    + apply steps_bind; [exact _|apply grows_log_tx|].
      intros _. apply steps_raise. exact _.
    + apply steps_bind; [exact _|apply steps_gets; exact _|]. intros prev.
      apply steps_bind; [exact _|apply grows_run_enforced|]. intros _.
      apply steps_bind; [exact _|apply steps_gets; exact _|]. intros sv.
      apply steps_bind; [exact _|apply grows_run_shadow|]. intros _.
      apply steps_bind; [exact _|apply grows_proxy_write|]. intros _.
      apply steps_bind; [exact _|apply grows_log_tx|]. intros _.
      apply steps_ret. exact _.
Qed.

Lemma grows_read (label : string) (k : option string) :
  steps grows (read label k).
Proof.
  pose proof grows_preorder.
  unfold read. apply steps_bind; [exact _| |].
  { apply grows_same_db. intros w.
    rewrite get_app_instance_from_key_pure. reflexivity. }
  intros [aid inst]. cbn [fst snd].
  apply steps_bind; [exact _|apply steps_gets; exact _|].
  intros l2i. destruct (l2i !! label) as [[|c s]|];
    try (apply steps_raise; exact _).
  destruct (decide (String c s ∈ cap_read (caps inst))).
  - apply steps_bind; [exact _|apply steps_gets; exact _|]. intros val.
    apply steps_bind; [exact _|apply grows_log_tx|]. intros _.
    apply steps_ret. exact _.
  - apply steps_bind; [exact _|apply grows_log_tx|].
    intros _. apply steps_raise. exact _.
Qed.

(** X4: the audit trail is append-only under requests: after any run of
    writes and reads, under any keys and whatever their outcomes, the transaction log, the
    shadow log and the time series are the old ones with rows added at the
    end, and the constraints and both validator tables are as they were. *)
Theorem requests_only_append (reqs : list ((WriteReq + string) * option string))
        (w : World) :
  let handle := fun (w0 : World) (rk : (WriteReq + string) * option string) =>
                  match fst rk with
                  | inl req => snd (write req (snd rk) w0)
                  | inr label => snd (read label (snd rk) w0)
                  end in
  let w' := foldl handle w reqs in
  txlog (DB w) `prefix_of` txlog (DB w') /\
  shadowlog (DB w) `prefix_of` shadowlog (DB w') /\
  timeseries (DB w) `prefix_of` timeseries (DB w') /\
  constraints (DB w') = constraints (DB w) /\
  validators (DB w') = validators (DB w) /\
  shadow_validators (DB w') = shadow_validators (DB w).
Proof.
  intros handle w'. subst w'. change (grows w (foldl handle w reqs)).
  pose proof grows_preorder.
  revert w. induction reqs as [|[[req|label] k] rest IH]; intros w; cbn [foldl].
  - reflexivity.
  - etransitivity; [apply (grows_write req k)|apply IH].
  - etransitivity; [apply (grows_read label k)|apply IH].
Qed.

Section Static.
Context {A : Type} (f : World -> A).
Hypothesis f_apps : forall a w, f (with_APPS a w) = f w.
Hypothesis f_state : forall s w, f (with_STATE s w) = f w.
Hypothesis f_db : forall d w, f (with_DB d w) = f w.
Hypothesis f_ticks : forall n w, f (with_ticks n w) = f w.

Lemma static_log_tx a b c d e f0 g h i : keeps f (log_tx a b c d e f0 g h i).
Proof.
  intros w. unfold log_tx, bind, time_time, modify. cbn [fst snd].
  rewrite f_db, f_ticks. reflexivity.
Qed.

Lemma static_log_shadow a b c d e f0 g h : keeps f (log_shadow a b c d e f0 g h).
Proof.
  intros w. unfold log_shadow, bind, time_time, modify. cbn [fst snd].
  rewrite f_db, f_ticks. reflexivity.
Qed.

Lemma static_proxy_write (label : string) (v : Q) : keeps f (proxy_write label v).
Proof.
  intros w. unfold proxy_write, log_timeseries, bind, time_time, modify.
  cbn [fst snd]. rewrite f_db, f_ticks, f_state. reflexivity.
Qed.

Lemma static_token_bucket_ok (aid : string) (inst : Instance) :
  keeps f (token_bucket_ok aid inst).
Proof.
  intros w. unfold token_bucket_ok, bind, time_time. cbn [fst snd].
  match goal with |- context [if ?b then _ else _] => destruct b end;
    cbn [modify ret fst snd]; rewrite f_apps, f_ticks; reflexivity.
Qed.

Lemma static_get_app_instance (k : option string) :
  keeps f (get_app_instance_from_key k).
Proof. intros w. rewrite get_app_instance_from_key_pure. reflexivity. Qed.

Lemma static_run_enforced (vlist : list string) aid user iri cls req prev :
  keeps f (run_enforced vlist aid user iri cls req prev).
Proof.
  induction vlist as [|v rest IH]; cbn [run_enforced]; [apply keeps_ret|].
  destruct (validator_named v); [|apply keeps_raise].
  apply keeps_bind; [apply keeps_gets|].
  intros [[|] reason]; cbn [fst snd]; [exact IH|].
  apply keeps_bind; [apply static_log_tx|]. intros _. apply keeps_raise.
Qed.

Lemma static_run_shadow (sv : list string) aid user iri cls req prev :
  keeps f (run_shadow sv aid user iri cls req prev).
Proof.
  induction sv as [|v rest IH]; cbn [run_shadow]; [apply keeps_ret|].
  destruct (validator_named v); [|apply keeps_raise].
  apply keeps_bind; [apply keeps_gets|].
  intros [[|] reason]; cbn [fst snd].
  - apply keeps_bind; [apply keeps_ret|]. intros _. exact IH.
  - apply keeps_bind; [apply static_log_shadow|]. intros _. exact IH.
Qed.

Lemma static_write (req : WriteReq) (k : option string) : keeps f (write req k).
Proof.
  unfold write. apply keeps_bind.
  - unfold write_admission.
    apply keeps_bind; [apply static_get_app_instance|].
    intros [aid inst]. cbn [fst snd].
    apply keeps_bind; [apply static_token_bucket_ok|].
    intros [|]; cbn [negb]; [|apply keeps_raise].
    apply keeps_bind; [apply keeps_gets|].
    intros l2i. destruct (l2i !! point_label req) as [[|c s]|];
      try apply keeps_raise.
    destruct (decide (String c s ∈ cap_write (caps inst))); [apply keeps_ret|].
    apply keeps_bind; [apply static_log_tx|]. intros _. apply keeps_raise.
  - intros [[aid inst] iri]. cbn [fst snd]. unfold write_guarded.
    apply keeps_bind; [apply keeps_gets|]. intros g.
    apply keeps_bind; [apply keeps_gets|]. intros [|v vlist].
    + apply keeps_bind; [apply static_log_tx|]. intros _. apply keeps_raise.
    + apply keeps_bind; [apply keeps_gets|]. intros prev.
      apply keeps_bind; [apply static_run_enforced|]. intros _.
      apply keeps_bind; [apply keeps_gets|]. intros sv.
      apply keeps_bind; [apply static_run_shadow|]. intros _.
      apply keeps_bind; [apply static_proxy_write|]. intros _.
      apply keeps_bind; [apply static_log_tx|]. intros _.
      apply keeps_ret.
Qed.
End Static.

Lemma read_keeps {A : Type} (f : World -> A) (label : string) (k : option string) :
  (forall d w, f (with_DB (with_txlog d (DB w)) w) = f w) ->
  (forall n w, f (with_ticks n w) = f w) ->
  keeps f (read label k).
Proof.
  intros f_tx f_ticks.
  assert (forall a b c d e f0 g h i, keeps f (log_tx a b c d e f0 g h i)) as Hlog.
  { intros a b c d e f0 g h i w. unfold log_tx, bind, time_time, modify.
    cbn [fst snd]. cbn [DB with_ticks].
    change (DB w) with (DB (with_ticks (S (ticks w)) w)).
    rewrite f_tx, f_ticks. reflexivity. }
  unfold read. apply keeps_bind.
  { intros w. rewrite get_app_instance_from_key_pure. reflexivity. }
  intros [aid inst]. cbn [fst snd].
  apply keeps_bind; [apply keeps_gets|].
  intros l2i. destruct (l2i !! label) as [[|c s]|]; try apply keeps_raise.
  destruct (decide (String c s ∈ cap_read (caps inst))).
  - apply keeps_bind; [apply keeps_gets|]. intros val.
    apply keeps_bind; [apply Hlog|]. intros _. apply keeps_ret.
  - apply keeps_bind; [apply Hlog|]. intros _. apply keeps_raise.
Qed.

(** X5: a read changes nothing but the transaction log and the clock:
    stored values, time series, shadow log, configuration tables, the
    registry of instances with their rate buckets (a read takes no token),
    keys, label maps, graph, profiles, policy and users are as before,
    whatever the outcome. *)
Theorem read_changes_only_txlog (label : string) (k : option string)
        (w : World) :
  all_but_txlog (snd (read label k w)) = all_but_txlog w.
Proof.
  apply (read_keeps all_but_txlog); intros; reflexivity.
Qed.

Lemma write_admission_apps (req : WriteReq) (k : option string) (w : World) :
  APPS (snd (write_admission req k w)) = APPS w \/
  bucket_updated k w (snd (write_admission req k w)).
Proof.
  destruct (write_admission req k w) as [[[[aid inst] iri]|e] w1] eqn:Hadm;
    cbn [snd].
  - destruct (write_admission_inv _ _ _ _ _ _ _ Hadm)
      as (k0 & b & -> & _ & _ & _ & Hkey & Hinst & _ & _ & ->).
    right. exists k0, aid, inst, b. repeat split; assumption.
  - revert Hadm. unfold write_admission, get_app_instance_from_key.
    destruct k as [[|c s]|]; try (cbn; intros Heq; inversion Heq; left; reflexivity).
    unfold bind at 1 2 3 4. unfold gets at 1 2. cbn [fst snd].
    destruct (APP_KEYS w !! String c s) as [[|c' s']|] eqn:Hkey;
      try (cbn; intros Heq; inversion Heq; left; reflexivity).
    cbn [fst snd].
    destruct (APPS w !! String c' s') as [inst0|] eqn:Hinst;
      try (cbn; intros Heq; inversion Heq; left; reflexivity).
    cbn [ret fst snd].
    unfold token_bucket_ok, bind at 1 2, time_time. cbn [fst snd].
    match goal with
    | |- context [if tokens ?bk >=? limit ?bk then _ else _] =>
        set (b0 := bk); destruct (tokens b0 >=? limit b0)
    end.
    + cbn. intros Heq. inversion Heq. right.
      exists (String c s), (String c' s'), inst0, b0. repeat split; assumption.
    + unfold bind at 1. unfold modify, ret. cbn [fst snd negb].
      unfold bind at 1, gets. cbn [fst snd LABEL2IRI with_APPS with_ticks].
      destruct (LABEL2IRI w !! point_label req) as [[|c0 s0]|] eqn:Hl;
        try (cbn; intros Heq; inversion Heq; right;
             eexists (String c s), (String c' s'), inst0, _;
             repeat split; assumption).
      destruct (decide (String c0 s0 ∈ cap_write (caps inst0))).
      * cbn. discriminate.
      * cbn. intros Heq. inversion Heq. right.
        eexists (String c s), (String c' s'), inst0, _.
        repeat split; assumption.
Qed.

Lemma write_apps (req : WriteReq) (k : option string) (w : World) :
  APPS (snd (write req k w)) = APPS w \/
  bucket_updated k w (snd (write req k w)).
Proof.
  pose proof (write_admission_apps req k w) as Hadm.
  unfold write, bind.
  destruct (write_admission req k w) as [[[[aid inst] iri]|e] w1];
    cbn [fst snd] in *; [|exact Hadm].
  destruct (quiet_write_guarded aid inst iri req w1) as (_ & Ha & _).
  destruct (write_guarded aid inst iri req w1) as [o w2]. cbn [snd] in *.
  destruct Hadm as [Hsame|(k0 & aid0 & inst0 & b & -> & Hkey & Hinst & Hup)].
  - left. congruence.
  - right. exists k0, aid0, inst0, b. repeat split; try assumption. congruence.
Qed.

Lemma write_state (req : WriteReq) (k : option string) (w : World) :
  STATE (snd (write req k w)) = STATE w \/
  STATE (snd (write req k w)) = <[point_label req := value req]> (STATE w).
Proof.
  destruct (write req k w) as [[r|e] w'] eqn:Hrun; cbn [snd].
  - right.
    destruct (write_success_inv _ _ _ _ _ Hrun)
      as (aid & iri & inst & w1 & rows & Hadm & _ & _ & _ & Hst & _).
    destruct (write_admission_inv _ _ _ _ _ _ _ Hadm)
      as (k0 & b & _ & _ & _ & _ & _ & _ & _ & _ & ->).
    exact Hst.
  - left. revert Hrun. unfold write, bind.
    pose proof (write_admission_proxy req k w) as Ha.
    destruct (write_admission req k w) as [[[[aid inst] iri]|e1] w1];
      cbn [fst snd] in *.
    + intros Hrun.
      pose proof (write_guarded_failure_proxy aid inst iri req w1 e) as Hg.
      rewrite Hrun in Hg. cbn [fst snd] in Hg. specialize (Hg eq_refl).
      unfold proxy_view in *. congruence.
    + intros Heq. inversion Heq. subst. unfold proxy_view in Ha. congruence.
Qed.

Lemma same_but_rate_refl (o : option Instance) :
  option_Forall2 same_but_rate o o.
Proof.
  destruct o; constructor. unfold same_but_rate. repeat split; reflexivity.
Qed.

(** X6: a write, whatever its outcome, can change one stored value (the
    one of its point) and one rate bucket (the one of the instance whose key
    it carries): every other point keeps its value, every instance keeps its
    manifest, capabilities, key and user, instances other than the caller
    are untouched, and graph, profiles, policy, users, label maps and keys
    are as before. *)
Theorem write_touches_one_point_one_bucket (req : WriteReq)
        (k : option string) (w : World) :
  let w' := snd (write req k w) in
  configuration w' = configuration w /\
  (forall l, l <> point_label req -> STATE w' !! l = STATE w !! l) /\
  (forall a, option_Forall2 same_but_rate (APPS w !! a) (APPS w' !! a)) /\
  (forall a, (forall k0, k = Some k0 -> APP_KEYS w !! k0 <> Some a) ->
             APPS w' !! a = APPS w !! a).
Proof.
  cbn zeta. split; [|split; [|split]].
  - apply (static_write configuration); intros; reflexivity.
  - intros l Hl. destruct (write_state req k w) as [->| ->]; [reflexivity|].
    apply lookup_insert_ne. congruence.
  - intros a.
    destruct (write_apps req k w)
      as [->|(k0 & aid & inst & b & _ & _ & Hinst & ->)];
      [apply same_but_rate_refl|].
    destruct (decide (aid = a)) as [<-|Hne].
    + rewrite lookup_insert_eq, Hinst. constructor.
      unfold same_but_rate. repeat split; reflexivity.
    + rewrite lookup_insert_ne by exact Hne. apply same_but_rate_refl.
  - intros a Hother.
    destruct (write_apps req k w)
      as [->|(k0 & aid & inst & b & -> & Hkey & _ & ->)]; [reflexivity|].
    apply lookup_insert_ne. intros <-. exact (Hother k0 eq_refl Hkey).
Qed.

(** ** Reading back *)

(** X7: after a write has returned its response, a read of the same point
    under the same key returns the value just written, provided the instance
    holds the read capability for the point. *)
Theorem read_after_write (req : WriteReq) (k0 aid iri : string)
        (inst : Instance) (w w' : World) (r : WriteResp) :
  write req (Some k0) w = (Return r, w') ->
  APP_KEYS w !! k0 = Some aid ->
  APPS w !! aid = Some inst ->
  LABEL2IRI w !! point_label req = Some iri ->
  iri ∈ cap_read (caps inst) ->
  fst (read (point_label req) (Some k0) w') =
  Return {| read_point := point_label req; read_value := Some (value req) |}.
Proof.
  intros Hrun Hkey Hinst Hl Hcap.
  destruct (write_success_inv _ _ _ _ _ Hrun)
    as (aid' & iri' & inst' & w1 & rows & Hadm & _ & _ & _ & Hst & Hap & Hks & Hli & _).
  destruct (write_admission_inv _ _ _ _ _ _ _ Hadm)
    as (k1 & b & Hk & Hk0 & Haid & Hiri & Hkey' & Hinst' & Hl' & _ & ->).
  inversion Hk. subst k1. clear Hk.
  rewrite Hkey in Hkey'. inversion Hkey'. subst aid'.
  rewrite Hinst in Hinst'. inversion Hinst'. subst inst'.
  rewrite Hl in Hl'. inversion Hl'. subst iri'.
  cbn [APPS APP_KEYS LABEL2IRI STATE with_APPS with_ticks] in Hst, Hap, Hks, Hli.
  unfold read, get_app_instance_from_key.
  destruct k0 as [|c s]; [contradiction|].
  unfold bind at 1 2 3. unfold gets at 1 2. cbn [fst snd].
  rewrite Hks, Hkey.
  destruct aid as [|c' s']; [contradiction|]. cbn [fst snd].
  rewrite Hap, lookup_insert_eq. cbn [ret fst snd].
  unfold bind at 1, gets at 1. cbn [fst snd]. rewrite Hli, Hl.
  destruct iri as [|c0 s0]; [contradiction|].
  cbn [caps with_rate].
  destruct (decide (String c0 s0 ∈ cap_read (caps inst))); [|contradiction].
  unfold bind at 1, gets at 1, proxy_read. cbn [fst snd].
  rewrite Hst, lookup_insert_eq. reflexivity.
Qed.

(** ** Registration and removal of instances *)

Lemma start_app_instance_unfold (man : Manifest) (p : Z) (w : World) :
  start_app_instance man p w =
  match compute_caps w man with
  | Raise e => (Raise e, with_ticks (S (ticks w)) w)
  | Return cs =>
      let aid := app_id man +:+ "-"
                 +:+ pretty (Num.py_int (clock (ticks w) * 1000)) in
      let inst := {| manifest := man; pid := p; key := "key_" +:+ aid;
                     caps := cs; inst_user := user man;
                     rate := Some {| limit := write_rate_limit_per_min man;
                                     tokens := 0;
                                     win := Num.minute_of (clock (S (ticks w))) |} |} in
      (Return {| app_instance_id := aid; info_pid := p;
                 info_key := "key_" +:+ aid |},
       with_APP_KEYS (<["key_" +:+ aid := aid]> (APP_KEYS w))
         (with_APPS (<[aid := inst]> (APPS w))
            (with_ticks (S (S (ticks w))) w)))
  end.
Proof.
  unfold start_app_instance, bind at 1 2, time_time at 1, lift. cbn [fst snd].
  change (compute_caps (with_ticks (S (ticks w)) w) man)
    with (compute_caps w man).
  destruct (compute_caps w man) as [cs|e]; reflexivity.
Qed.

Lemma registry_ok_apps_update (w w' : World) :
  APP_KEYS w' = APP_KEYS w ->
  APPS w' = APPS w \/
  (exists aid inst b, APPS w !! aid = Some inst /\
                      APPS w' = <[aid := with_rate b inst]> (APPS w)) ->
  registry_ok w -> registry_ok w'.
Proof.
  intros Hk Ha [H1 H2]. unfold registry_ok. rewrite Hk.
  destruct Ha as [->|(aid & inst & b & Hinst & ->)]; [split; assumption|].
  split.
  - intros k a Hka. destruct (H1 k a Hka) as [-> Hs]. split; [reflexivity|].
    rewrite lookup_insert_is_Some. destruct (decide (aid = a)); [left|right]; auto.
  - intros a i. rewrite lookup_insert_Some.
    intros [[<- <-]|[_ Hi]]; [|exact (H2 a i Hi)].
    cbn [key with_rate]. exact (H2 aid inst Hinst).
Qed.

Lemma registry_ok_start (man : Manifest) (p : Z) (w : World) :
  registry_ok w -> registry_ok (snd (start_app_instance man p w)).
Proof.
  intros [H1 H2]. rewrite start_app_instance_unfold.
  destruct (compute_caps w man) as [cs|e]; [|split; assumption].
  cbn zeta. cbn [snd]. split; cbn [APP_KEYS APPS with_APP_KEYS with_APPS with_ticks].
  - intros k a. rewrite lookup_insert_Some.
    intros [[<- <-]|[_ H]].
    + split; [reflexivity|]. rewrite lookup_insert_eq. eexists. reflexivity.
    + destruct (H1 _ _ H) as [-> Hs]. split; [reflexivity|].
      rewrite lookup_insert_is_Some.
      match goal with |- ?x = a \/ _ => destruct (decide (x = a)) end;
        [left|right]; auto.
  - intros a i. rewrite lookup_insert_Some.
    intros [[<- <-]|[_ Hi]]; [reflexivity|exact (H2 a i Hi)].
Qed.

Lemma registry_ok_stop (aid : string) (w : World) :
  registry_ok w -> registry_ok (snd (stop_app_instance aid w)).
Proof.
  intros [H1 H2]. unfold stop_app_instance, bind, gets. cbn [fst snd].
  destruct (APPS w !! aid) as [inst|] eqn:Hinst; [|split; assumption].
  cbn [modify snd]. split; cbn [APP_KEYS APPS with_APP_KEYS with_APPS].
  - intros k a. rewrite lookup_delete_Some. intros [Hne Hka].
    destruct (H1 _ _ Hka) as [-> Hs]. split; [reflexivity|].
    destruct (decide (aid = a)) as [<-|Hna].
    + exfalso. apply Hne. apply (H2 _ _ Hinst).
    + rewrite lookup_delete_ne by exact Hna. exact Hs.
  - intros a i. rewrite lookup_delete_Some. intros [_ Hi]. exact (H2 a i Hi).
Qed.

Lemma registry_ok_write (req : WriteReq) (k : option string) (w : World) :
  registry_ok w -> registry_ok (snd (write req k w)).
Proof.
  intros Hok.
  pose proof (static_write APP_KEYS (fun _ _ => eq_refl) (fun _ _ => eq_refl)
                (fun _ _ => eq_refl) (fun _ _ => eq_refl) req k w) as Hk.
  apply (registry_ok_apps_update w); [exact Hk| |exact Hok].
  destruct (write_apps req k w)
    as [Hs|(k0 & aid & inst & b & _ & _ & Hinst & Hup)]; [left; exact Hs|].
  right. exists aid, inst, b. split; assumption.
Qed.

Lemma registry_ok_read (label : string) (k : option string) (w : World) :
  registry_ok w -> registry_ok (snd (read label k w)).
Proof.
  intros Hok.
  pose proof (read_keeps APP_KEYS label k (fun _ _ => eq_refl)
                (fun _ _ => eq_refl) w) as Hk.
  pose proof (read_keeps APPS label k (fun _ _ => eq_refl)
                (fun _ _ => eq_refl) w) as Ha.
  apply (registry_ok_apps_update w); [exact Hk|left; exact Ha|exact Hok].
Qed.

(** X8: the registry stays consistent: if every key is [key_] followed by
    the id of a registered instance that records that key, the same holds
    after a registration (successful or not), a stop, a write and a read; in
    such a state the lookup of a key fails only with an HTTP error, never
    with a missing instance. *)
Theorem registry_stays_consistent (w : World) :
  registry_ok w ->
  (forall man p, registry_ok (snd (start_app_instance man p w))) /\
  (forall aid, registry_ok (snd (stop_app_instance aid w))) /\
  (forall req k, registry_ok (snd (write req k w))) /\
  (forall label k, registry_ok (snd (read label k w))) /\
  (forall k e, fst (get_app_instance_from_key k w) = Raise e ->
               exists code detail, e = HTTPException code detail).
Proof.
  intros Hok. split; [|split; [|split; [|split]]].
  - intros man p. apply registry_ok_start. exact Hok.
  - intros aid. apply registry_ok_stop. exact Hok.
  - intros req k. apply registry_ok_write. exact Hok.
  - intros label k. apply registry_ok_read. exact Hok.
  - destruct Hok as [H1 _]. intros k e. unfold get_app_instance_from_key.
    destruct k as [[|c s]|]; cbn.
    + intros Heq. inversion Heq. eexists _, _. reflexivity.
    + unfold bind, gets. cbn.
      destruct (APP_KEYS w !! String c s) as [[|c' s']|] eqn:Hk; cbn.
      * intros Heq. inversion Heq. eexists _, _. reflexivity.
      * destruct (H1 _ _ Hk) as [_ [i Hi]]. rewrite Hi. cbn. discriminate.
      * intros Heq. inversion Heq. eexists _, _. reflexivity.
    + intros Heq. inversion Heq. eexists _, _. reflexivity.
Qed.

Lemma instance_id_not_empty (s t : string) : s +:+ "-" +:+ t <> "".
Proof. destruct s; discriminate. Qed.

(** X9: a registration whose capabilities resolve returns a key that
    authenticates as the new instance: the key is [key_] followed by the
    instance id, and looking it up gives the instance with the manifest, the
    resolved capabilities and a fresh rate bucket (no token used, the
    manifest's limit, the current minute). *)
Theorem registered_key_authenticates (man : Manifest) (p : Z) (w : World)
        (cs : Caps) :
  compute_caps w man = Return cs ->
  exists (info : StartInfo) (w' : World) (inst : Instance),
    start_app_instance man p w = (Return info, w') /\
    info_key info = "key_" +:+ app_instance_id info /\
    get_app_instance_from_key (Some (info_key info)) w' =
      (Return (app_instance_id info, inst), w') /\
    manifest inst = man /\ caps inst = cs /\ inst_user inst = user man /\
    rate inst = Some {| limit := write_rate_limit_per_min man; tokens := 0;
                        win := Num.minute_of (clock (S (ticks w))) |}.
Proof.
  intros Hcs. rewrite start_app_instance_unfold, Hcs. cbn zeta.
  eexists _, _,
    {| manifest := man; pid := p;
       key := "key_" +:+ (app_id man +:+ "-"
                          +:+ pretty (Num.py_int (clock (ticks w) * 1000)));
       caps := cs; inst_user := user man;
       rate := Some {| limit := write_rate_limit_per_min man; tokens := 0;
                       win := Num.minute_of (clock (S (ticks w))) |} |}.
  split; [reflexivity|]. cbn [info_key app_instance_id].
  split; [reflexivity|].
  split.
  - pose proof (instance_id_not_empty (app_id man)
                  (pretty (Num.py_int (clock (ticks w) * 1000)))) as Hne.
    set (aid := app_id man +:+ "-"
                +:+ pretty (Num.py_int (clock (ticks w) * 1000))) in *.
    unfold get_app_instance_from_key.
    change ("key_" +:+ aid)
      with (String "k" (String "e" (String "y" (String "_" aid)))).
    unfold bind at 1, gets at 1. cbn [fst snd APP_KEYS with_APP_KEYS].
    rewrite lookup_insert_eq.
    destruct aid as [|c s] eqn:Haid; [contradiction|].
    unfold bind at 1, gets at 1. cbn [fst snd APPS with_APP_KEYS with_APPS].
    rewrite lookup_insert_eq. reflexivity.
  - repeat split; reflexivity.
Qed.

(** X10: a registration fails exactly when the profile cannot be rendered
    (unknown profile, or a typed argument that the graph does not confirm);
    it then raises that error and registers nothing: instances, keys,
    stored values and database are as before. *)
Theorem failed_registration_registers_nothing (man : Manifest) (p : Z)
        (w : World) (e : exn) :
  (fst (start_app_instance man p w) = Raise e <->
   render_profile w (profile man) (args man) = Raise e) /\
  (fst (start_app_instance man p w) = Raise e ->
   let w' := snd (start_app_instance man p w) in
   APPS w' = APPS w /\ APP_KEYS w' = APP_KEYS w /\
   STATE w' = STATE w /\ DB w' = DB w).
Proof.
  rewrite start_app_instance_unfold. unfold compute_caps.
  destruct (render_profile w (profile man) (args man)) as [q|e'].
  - destruct (decide (delegation man = "augmentation")); cbn.
    + split; [split; discriminate|discriminate].
    + split; [split; discriminate|discriminate].
  - cbn. split; [|intros _; repeat split; reflexivity].
    split; intros Heq; inversion Heq; reflexivity.
Qed.

(** X11: stopping a registered instance removes it and its key; from then
    on every write under that key is refused as unauthenticated or under an
    invalid key and changes nothing, while the other instances and keys stay.
    Stopping an id that is not registered changes nothing. *)
Theorem stopped_instance_is_locked_out (aid : string) (w : World) :
  let w' := snd (stop_app_instance aid w) in
  fst (stop_app_instance aid w) = Return tt /\
  (APPS w !! aid = None -> w' = w) /\
  (forall inst, APPS w !! aid = Some inst ->
     APPS w' = delete aid (APPS w) /\
     APP_KEYS w' = delete (key inst) (APP_KEYS w) /\
     forall req : WriteReq,
       write req (Some (key inst)) w' =
         (Raise (HTTPException (if decide (key inst = "") then 401 else 403)
                               (if decide (key inst = "")
                                then "Missing X-App-Key"
                                else "Invalid X-App-Key")), w')).
Proof.
  unfold stop_app_instance, bind, gets. cbn [fst snd].
  destruct (APPS w !! aid) as [inst|] eqn:Hinst; cbn zeta.
  - split; [reflexivity|]. split; [discriminate|].
    intros i Hi. inversion Hi. subst i. cbn [modify snd].
    split; [reflexivity|]. split; [reflexivity|]. intros req.
    unfold write, write_admission, get_app_instance_from_key.
    destruct (key inst) as [|c s] eqn:Hkey; [reflexivity|].
    destruct (decide (String c s = "")) as [Heq|_]; [discriminate Heq|].
    unfold bind at 1 2 3. unfold gets at 1. cbn [fst snd APP_KEYS with_APPS with_APP_KEYS].
    rewrite lookup_delete_eq. reflexivity.
  - split; [reflexivity|]. split; [reflexivity|]. discriminate.
Qed.

(** ** Rendering a profile *)

Lemma check_args_passes (g : Graph) (args : gmap string string)
      (metas : list (string * ArgMeta)) :
  Forall (arg_checks g args) metas -> check_args g args metas = Return tt.
Proof.
  induction 1 as [|[arg meta] rest Hc _ IH]; cbn [check_args]; [reflexivity|].
  destruct (args !! arg) as [label|] eqn:Ha; [|exact IH].
  destruct (arg_type meta) as [ty|] eqn:Ht; [|exact IH].
  unfold require_typed_label.
  destruct (query g (typed_label_query label ty)) eqn:Hq; [|exact IH].
  exfalso. exact (Hc label ty Ha Ht Hq).
Qed.

(** X12: rendering a known profile succeeds when every supplied argument
    with a declared type is confirmed by the graph, and gives the rendered
    template; otherwise it fails with status 400 on the first argument, in
    the order of the profile, whose label is not of its declared type.
    Arguments that are not supplied or have no declared type are not
    checked. *)
Theorem render_profile_checks_typed_args (w : World) (p : string)
        (pf : Profile) (a : gmap string string) :
  PROFILES w !! p = Some pf ->
  (Forall (arg_checks (G w) a) (pf_args pf) ->
   render_profile w p a = Return (jinja_render (sparql pf) a)) /\
  (forall pre post arg meta label ty,
      pf_args pf = pre ++ (arg, meta) :: post ->
      Forall (arg_checks (G w) a) pre ->
      a !! arg = Some label -> arg_type meta = Some ty ->
      query (G w) (typed_label_query label ty) = [] ->
      render_profile w p a =
      Raise (HTTPException 400
               ("Typed argument check failed: label '" +:+ label
                +:+ "' is not a " +:+ ty))).
Proof.
  intros Hp. unfold render_profile. rewrite Hp. split.
  - intros Hall. rewrite (check_args_passes _ _ _ Hall). reflexivity.
  - intros pre post arg meta label ty -> Hpre Ha Ht Hq.
    induction Hpre as [|[arg0 meta0] rest Hc _ IH]; cbn [app check_args].
    + rewrite Ha, Ht. unfold require_typed_label. rewrite Hq. reflexivity.
    + destruct (a !! arg0) as [l0|] eqn:Ha0; [|exact IH].
      destruct (arg_type meta0) as [t0|] eqn:Ht0; [|exact IH].
      unfold require_typed_label.
      destruct (query (G w) (typed_label_query l0 t0)) eqn:Hq0; [|exact IH].
      exfalso. exact (Hc l0 t0 Ha0 Ht0 Hq0).
Qed.

(** ** Loading the policy *)

Lemma enumerated_rows (cls : string) (arr : list string) :
  let rows := imap (fun pos ty => {| resource_class := cls;
                                     position := Z.of_nat pos;
                                     vtype := ty |}) arr in
  StronglySorted by_position rows /\
  Forall (fun r => resource_class r = cls) rows /\
  map vtype rows = arr.
Proof.
  cbn zeta.
  destruct (promoted_rows_sorted cls arr 0) as (Hs & Hall & Hm).
  cbn zeta in Hs, Hall, Hm.
  assert (imap (fun i v => {| resource_class := cls;
                              position := 0 + Z.of_nat i; vtype := v |}) arr
          = imap (fun pos ty => {| resource_class := cls;
                                   position := Z.of_nat pos; vtype := ty |}) arr)
    as Heq.
  { apply imap_ext. intros i x _. reflexivity. }
  rewrite Heq in Hs, Hall, Hm.
  split; [exact Hs|]. split; [|exact Hm].
  eapply Forall_impl; [exact Hall|]. intros r [_ Hr]. exact Hr.
Qed.

Lemma rows_of_class_same (cls c : string) (rows : list VRow) :
  Forall (fun r => resource_class r = c) rows ->
  rows_of_class cls rows = if decide (c = cls) then rows else [].
Proof.
  unfold rows_of_class.
  induction 1 as [|r rows Hr _ IH]; [destruct (decide (c = cls)); reflexivity|].
  rewrite filter_cons, IH.
  destruct (decide (resource_class r = cls)) as [Hy|Hn];
    destruct (decide (c = cls)) as [Hc|Hc]; try reflexivity; congruence.
Qed.

Lemma chain_rows_select (cls : string) (items : list (string * list string)) :
  NoDup (map fst items) ->
  (forall arr, (cls, arr) ∈ items ->
               select_vtypes cls (chain_rows items) = arr) /\
  (cls ∉ map fst items -> select_vtypes cls (chain_rows items) = []).
Proof.
  unfold select_vtypes.
  induction items as [|[c a] items IH]; intros Hnd.
  - split; [intros arr Hin; inversion Hin|reflexivity].
  - cbn [map fst] in Hnd. apply NoDup_cons in Hnd as [Hc Hnd].
    destruct (IH Hnd) as [IH1 IH2].
    destruct (enumerated_rows c a) as (Hs & Hall & Hm). cbn zeta in Hs, Hall, Hm.
    cbn [chain_rows flat_map fst snd]. fold (chain_rows items).
    unfold rows_of_class in *. rewrite filter_app.
    fold (rows_of_class cls (imap (fun pos ty => {| resource_class := c;
                                   position := Z.of_nat pos; vtype := ty |}) a)).
    rewrite (rows_of_class_same cls c _ Hall).
    split.
    + intros arr Hin. apply elem_of_cons in Hin as [Heq|Hin].
      * inversion Heq. subst c a.
        destruct (decide (cls = cls)) as [_|Hne]; [|contradiction].
        assert (filter (fun r => resource_class r = cls) (chain_rows items) = [])
          as ->.
        { assert (map vtype (order_by_position
                    (filter (fun r => resource_class r = cls) (chain_rows items)))
                  = []) as Hnil by (apply IH2; exact Hc).
          apply map_eq_nil in Hnil.
          apply Permutation_nil_r. rewrite <- Hnil.
          apply order_by_position_perm. }
        rewrite app_nil_r, order_by_position_id by exact Hs. exact Hm.
      * destruct (decide (c = cls)) as [->|Hne].
        -- exfalso. apply Hc. apply list_elem_of_fmap. exists (cls, arr).
           split; [reflexivity|exact Hin].
        -- cbn [app]. apply IH1. exact Hin.
    + intros Hnot. cbn [map fst] in Hnot. apply not_elem_of_cons in Hnot as [Hne Hnot].
      destruct (decide (c = cls)) as [Heq|_]; [congruence|].
      cbn [app]. apply IH2. exact Hnot.
Qed.

(** X13: after [load_all] the enforced chain of a class is the list of
    validator types the policy gives for it, in the policy's order, and the
    empty chain for a class the policy does not list; the same holds for the
    shadow chain.  The earlier tables play no part, so a reload drops every
    validator that had been promoted. *)
Theorem load_all_installs_policy_chains (f : Files) (w : World) (c : string) :
  NoDup (map fst (doc_validators (policy_yaml f))) ->
  NoDup (map fst (doc_shadow_validators (policy_yaml f))) ->
  let w' := snd (load_all f w) in
  (forall arr, (Str.local_name c, arr) ∈ doc_validators (policy_yaml f) ->
               get_validators_for_class w' c = arr) /\
  (Str.local_name c ∉ map fst (doc_validators (policy_yaml f)) ->
   get_validators_for_class w' c = []) /\
  (forall arr, (Str.local_name c, arr) ∈ doc_shadow_validators (policy_yaml f) ->
               get_shadow_validators_for_class w' c = arr) /\
  (Str.local_name c ∉ map fst (doc_shadow_validators (policy_yaml f)) ->
   get_shadow_validators_for_class w' c = []).
Proof.
  intros He Hs. cbn zeta.
  unfold get_validators_for_class, get_shadow_validators_for_class.
  cbn [load_all modify snd DB validators shadow_validators].
  destruct (chain_rows_select (Str.local_name c) _ He) as [E1 E2].
  destruct (chain_rows_select (Str.local_name c) _ Hs) as [S1 S2].
  repeat split; assumption.
Qed.

(** X14: loading the same files again changes nothing: the second
    [load_all] leaves the state the first one produced, with no duplicated
    chain entries. *)
Theorem load_all_idempotent (f : Files) (w : World) :
  snd (load_all f (snd (load_all f w))) = snd (load_all f w).
Proof.
  unfold load_all, modify. cbn.
  do 2 f_equal. apply map_eq. intros i. rewrite !lookup_union.
  destruct (doc_constraints (policy_yaml f) !! i);
    destruct (constraints (DB w) !! i); reflexivity.
Qed.

(** X15: [load_all] merges the constraints instead of replacing them: a key
    the policy gives gets the policy's value, a key the policy no longer
    gives keeps the value it had.  Instances, keys, stored values and the
    three logs are not touched. *)
Theorem load_all_merges_constraints (f : Files) (w : World) :
  let w' := snd (load_all f w) in
  (forall k v, doc_constraints (policy_yaml f) !! k = Some v ->
               get_constraints w' !! k = Some v) /\
  (forall k, doc_constraints (policy_yaml f) !! k = None ->
             get_constraints w' !! k = get_constraints w !! k) /\
  APPS w' = APPS w /\ APP_KEYS w' = APP_KEYS w /\ STATE w' = STATE w /\
  txlog (DB w') = txlog (DB w) /\ shadowlog (DB w') = shadowlog (DB w) /\
  timeseries (DB w') = timeseries (DB w).
Proof.
  cbn zeta. unfold get_constraints. cbn.
  split; [|split; [|repeat split; reflexivity]].
  - intros k v Hk. apply lookup_union_Some_l. exact Hk.
  - intros k Hk. apply lookup_union_r. exact Hk.
Qed.

Lemma foldl_insert_lookup (kf vf : Row -> string) (rows : list Row) :
  NoDup (map kf rows) ->
  forall a b,
    foldl (fun m (r : Row) => <[kf r := vf r]> m) (∅ : gmap string string) rows
      !! a = Some b <->
    exists r, r ∈ rows /\ kf r = a /\ vf r = b.
Proof.
  induction rows as [|r rows IH] using rev_ind; intros Hnd a b.
  - cbn. rewrite lookup_empty. split; [discriminate|].
    intros (r & Hr & _). inversion Hr.
  - rewrite map_app in Hnd. apply NoDup_app in Hnd as (Hnd & Hfresh & _).
    rewrite foldl_app. cbn [foldl]. rewrite lookup_insert_Some. split.
    + intros [[<- <-]|[Hne Hl]].
      * exists r. split; [|split; reflexivity].
        apply elem_of_app. right. constructor.
      * apply (IH Hnd) in Hl as (r' & Hr' & Hk & Hv).
        exists r'. split; [|split; assumption].
        apply elem_of_app. left. exact Hr'.
    + intros (r' & Hr' & Hk & Hv).
      apply elem_of_app in Hr' as [Hr'|Hr'].
      * right. split.
        -- intros Heq. apply (Hfresh (kf r')).
           ++ apply list_elem_of_fmap. exists r'. split; [reflexivity|exact Hr'].
           ++ cbn. rewrite Hk, <- Heq. constructor.
        -- apply (IH Hnd). exists r'. split; [exact Hr'|split; assumption].
      * apply list_elem_of_singleton in Hr'. subst r'. left. split; assumption.
Qed.

(** X16: when no two rows of the label query share an identifier or a
    label, the two label maps that [load_all] builds are inverse to each
    other: a label resolves to an identifier exactly when the identifier
    resolves to that label. *)
Theorem load_all_label_maps_inverse (f : Files) (w : World) :
  let rows := query (model_ttl f) label_query in
  NoDup (map (fun r : Row => r "pt") rows) ->
  NoDup (map (fun r : Row => r "lbl") rows) ->
  forall label iri,
    LABEL2IRI (snd (load_all f w)) !! label = Some iri <->
    IRI2LABEL (snd (load_all f w)) !! iri = Some label.
Proof.
  intros rows Hpt Hlbl label iri.
  cbn [load_all modify snd LABEL2IRI IRI2LABEL]. fold rows.
  rewrite (foldl_insert_lookup (fun r => r "lbl") (fun r => r "pt") rows Hlbl).
  rewrite (foldl_insert_lookup (fun r => r "pt") (fun r => r "lbl") rows Hpt).
  split; intros (r & Hr & H1 & H2); exists r; repeat split; assumption.
Qed.

(** ** The monitor's remediation *)

Lemma bind_unit {B} (c : M unit) (k : unit -> M B) (w : World) :
  fst (c w) = Return tt -> bind c k w = k tt (snd (c w)).
Proof. unfold bind. destruct (c w) as [[[]|e] w1]; cbn; [reflexivity|discriminate]. Qed.

Lemma stop_app_instance_total (aid : string) (w : World) :
  fst (stop_app_instance aid w) = Return tt.
Proof.
  unfold stop_app_instance, bind, gets. cbn.
  destruct (APPS w !! aid); reflexivity.
Qed.

Lemma reset_points_total (keys : list string) (pat : string) (r : Q) (w : World) :
  fst (reset_points keys pat r w) = Return tt.
Proof.
  revert w. induction keys as [|k rest IH]; intros w; cbn [reset_points];
    [reflexivity|].
  destruct (Str.contains pat k); [|apply IH].
  unfold bind at 1, modify. cbn [fst snd].
  unfold bind at 1, log_timeseries, bind, time_time, modify. cbn [fst snd].
  apply IH.
Qed.

Lemma terminate_apps_total (aids : list string) (w : World) :
  fst (terminate_apps aids w) = Return tt.
Proof.
  revert w. induction aids as [|a rest IH]; intros w; cbn [terminate_apps];
    [reflexivity|].
  rewrite bind_unit by apply stop_app_instance_total. apply IH.
Qed.

Lemma monitor_action_total cfg keys aids act (w : World) :
  fst (monitor_action cfg keys aids act w) = Return tt.
Proof.
  unfold monitor_action.
  destruct (decide (act_type act = "reset_points")); [apply reset_points_total|].
  destruct (decide (act_type act = "revoke_capabilities")); [reflexivity|].
  destruct (decide (act_type act = "terminate_apps"));
    [apply terminate_apps_total|reflexivity].
Qed.

Lemma monitor_actions_total cfg keys aids acts (w : World) :
  fst (monitor_actions cfg keys aids acts w) = Return tt.
Proof.
  revert w. induction acts as [|act rest IH]; intros w; cbn [monitor_actions];
    [reflexivity|].
  rewrite bind_unit by apply monitor_action_total. apply IH.
Qed.

Lemma monitor_window_end_unfold cfg cnt keys aids (w : World) :
  threshold_count cfg <= cnt ->
  monitor_window_end cfg cnt keys aids w =
  (Return true, snd (monitor_actions cfg keys aids (actions cfg) w)).
Proof.
  intros Hc. unfold monitor_window_end.
  destruct (Z.geb_spec cnt (threshold_count cfg)) as [_|Hlt]; [|lia].
  rewrite bind_unit by apply monitor_actions_total. reflexivity.
Qed.

Lemma reset_points_apps (keys : list string) (pat : string) (r : Q) :
  keeps (fun w => (APPS w, APP_KEYS w, txlog (DB w), shadowlog (DB w)))
        (reset_points keys pat r).
Proof.
  induction keys as [|k rest IH]; cbn [reset_points]; [apply keeps_ret|].
  destruct (Str.contains pat k); [|exact IH].
  apply keeps_bind; [intros w; reflexivity|]. intros _.
  apply keeps_bind; [intros w; reflexivity|]. intros _. exact IH.
Qed.

Lemma terminate_apps_lookup (aids : list string) (w : World) (a : string) :
  APPS (snd (terminate_apps aids w)) !! a =
  if decide (a ∈ aids) then None else APPS w !! a.
Proof.
  revert w. induction aids as [|x rest IH]; intros w; cbn [terminate_apps].
  - destruct (decide (a ∈ [])) as [Hin|_]; [inversion Hin|reflexivity].
  - rewrite bind_unit by apply stop_app_instance_total. rewrite IH.
    assert (APPS (snd (stop_app_instance x w)) !! a =
            if decide (a = x) then None else APPS w !! a) as Hstop.
    { unfold stop_app_instance, bind, gets. cbn [fst snd].
      destruct (APPS w !! x) as [i|] eqn:Hx; cbn.
      - destruct (decide (a = x)) as [->|Hne];
          [apply lookup_delete_eq|apply lookup_delete_ne; congruence].
      - destruct (decide (a = x)) as [->|Hne]; [exact Hx|reflexivity]. }
    rewrite Hstop.
    destruct (decide (a ∈ rest)) as [Hin|Hnin].
    + destruct (decide (a ∈ x :: rest)) as [_|Hn]; [reflexivity|].
      exfalso. apply Hn. right. exact Hin.
    + destruct (decide (a = x)) as [->|Hne].
      * destruct (decide (x ∈ x :: rest)) as [_|Hn]; [reflexivity|].
        exfalso. apply Hn. left.
      * destruct (decide (a ∈ x :: rest)) as [Hin|_]; [|reflexivity].
        apply elem_of_cons in Hin as [?|?]; contradiction.
Qed.

Lemma terminate_apps_registry (aids : list string) (w : World) :
  registry_ok w -> registry_ok (snd (terminate_apps aids w)).
Proof.
  revert w. induction aids as [|x rest IH]; intros w Hok; cbn [terminate_apps];
    [exact Hok|].
  rewrite bind_unit by apply stop_app_instance_total.
  apply IH. apply registry_ok_stop. exact Hok.
Qed.

Lemma no_write_caps_blocks (w : World) (req : WriteReq) (k : option string) :
  no_write_caps w -> exists e, fst (write req k w) = Raise e.
Proof.
  intros Hno. destruct (write req k w) as [[r|e] w'] eqn:Hrun;
    [|exists e; reflexivity].
  exfalso.
  destruct (write_success_inv _ _ _ _ _ Hrun)
    as (aid & iri & inst & w1 & rows & Hadm & _).
  destruct (write_admission_inv _ _ _ _ _ _ _ Hadm)
    as (k0 & b & _ & _ & _ & _ & _ & Hinst & _ & Hcap & _).
  rewrite (Hno _ _ Hinst) in Hcap. inversion Hcap.
Qed.

Lemma write_failure_state (req : WriteReq) (k : option string) (w : World)
      (e : exn) :
  fst (write req k w) = Raise e -> STATE (snd (write req k w)) = STATE w.
Proof.
  unfold write, bind.
  pose proof (write_admission_proxy req k w) as Ha.
  destruct (write_admission req k w) as [[[[aid inst] iri]|e1] w1];
    cbn [fst snd] in *.
  - intros Hrun.
    pose proof (write_guarded_failure_proxy aid inst iri req w1 e) as Hg.
    destruct (write_guarded aid inst iri req w1) as [o w2].
    cbn [fst snd] in *. specialize (Hg Hrun).
    unfold proxy_view in *. congruence.
  - intros _. unfold proxy_view in Ha. congruence.
Qed.

Lemma terminate_apps_state (aids : list string) :
  keeps (fun w => (STATE w, DB w)) (terminate_apps aids).
Proof.
  induction aids as [|x rest IH]; cbn [terminate_apps]; [apply keeps_ret|].
  apply keeps_bind; [|intros _; exact IH].
  intros w. unfold stop_app_instance, bind, gets. cbn [fst snd].
  destruct (APPS w !! x); reflexivity.
Qed.

Lemma monitor_action_no_write_caps cfg keys aids act (w : World) :
  no_write_caps w \/ act_type act = "revoke_capabilities" ->
  no_write_caps (snd (monitor_action cfg keys aids act w)).
Proof.
  intros Hpre. unfold monitor_action.
  destruct (decide (act_type act = "reset_points")) as [Hr|_].
  - destruct Hpre as [Hno|Hrev]; [|rewrite Hr in Hrev; discriminate Hrev].
    pose proof (reset_points_apps keys (default "" (act_match act))
                  (cooling_reset cfg) w) as Hk.
    inversion Hk as [[Ha Hkeys Htx Hsh]].
    intros a inst. rewrite Ha. apply Hno.
  - destruct (decide (act_type act = "revoke_capabilities")) as [_|Hnr].
    + intros a inst. cbn. rewrite lookup_fmap.
      destruct (APPS w !! a) as [i|]; cbn; [|discriminate].
      intros Heq. inversion Heq. reflexivity.
    + destruct Hpre as [Hno|Hrev]; [|contradiction].
      destruct (decide (act_type act = "terminate_apps")) as [_|_]; [|exact Hno].
      intros a inst. rewrite terminate_apps_lookup.
      destruct (decide (a ∈ aids)); [discriminate|apply Hno].
Qed.

Lemma monitor_actions_no_write_caps cfg keys aids acts (w : World) :
  no_write_caps w \/
  Exists (fun act => act_type act = "revoke_capabilities") acts ->
  no_write_caps (snd (monitor_actions cfg keys aids acts w)).
Proof.
  revert w. induction acts as [|act rest IH]; intros w Hpre;
    cbn [monitor_actions].
  - destruct Hpre as [Hno|Hex]; [exact Hno|inversion Hex].
  - rewrite bind_unit by apply monitor_action_total. apply IH.
    destruct Hpre as [Hno|Hex].
    + left. apply monitor_action_no_write_caps. left. exact Hno.
    + apply Exists_cons in Hex as [Hrev|Hex]; [|right; exact Hex].
      left. apply monitor_action_no_write_caps. right. exact Hrev.
Qed.

(** X17: when a window reaches the threshold and the configured actions
    include [revoke_capabilities], the remediation leaves no instance with a
    write capability, whatever the other actions are: every write that
    follows is refused and stores nothing. *)
Theorem revocation_blocks_all_writes (cfg : MonitorCfg) (cnt : Z)
        (keys aids : list string) (w : World) :
  threshold_count cfg <= cnt ->
  Exists (fun act => act_type act = "revoke_capabilities") (actions cfg) ->
  let w' := snd (monitor_window_end cfg cnt keys aids w) in
  fst (monitor_window_end cfg cnt keys aids w) = Return true /\
  no_write_caps w' /\
  forall (req : WriteReq) (k : option string),
    (exists e, fst (write req k w') = Raise e) /\
    STATE (snd (write req k w')) = STATE w'.
Proof.
  intros Hc Hex. cbn zeta. rewrite monitor_window_end_unfold by exact Hc.
  cbn [fst snd]. split; [reflexivity|].
  assert (no_write_caps (snd (monitor_actions cfg keys aids (actions cfg) w)))
    as Hno by (apply monitor_actions_no_write_caps; right; exact Hex).
  split; [exact Hno|]. intros req k.
  destruct (no_write_caps_blocks _ req k Hno) as [e He].
  split; [exists e; exact He|]. apply (write_failure_state _ _ _ e He).
Qed.

Lemma reset_points_state (keys : list string) (pat : string) (r : Q)
      (w : World) (k : string) :
  STATE (snd (reset_points keys pat r w)) !! k =
  if Str.contains pat k && bool_decide (k ∈ keys) then Some r
  else STATE w !! k.
Proof.
  revert w. induction keys as [|x rest IH]; intros w; cbn [reset_points].
  - rewrite bool_decide_eq_false_2 by (intros Hin; inversion Hin).
    rewrite andb_false_r. reflexivity.
  - destruct (Str.contains pat x) eqn:Hx.
    + unfold bind at 1, modify. cbn [fst snd].
      unfold bind at 1, log_timeseries, bind, time_time, modify. cbn [fst snd].
      rewrite IH. cbn [STATE with_STATE with_DB with_ticks].
      destruct (decide (k = x)) as [->|Hne].
      * rewrite Hx, lookup_insert_eq.
        rewrite (bool_decide_eq_true_2 (x ∈ x :: rest)) by left.
        destruct (bool_decide (x ∈ rest)); reflexivity.
      * rewrite lookup_insert_ne by congruence.
        assert (bool_decide (k ∈ x :: rest) = bool_decide (k ∈ rest)) as ->.
        { apply bool_decide_ext. rewrite elem_of_cons. tauto. }
        reflexivity.
    + rewrite IH. destruct (decide (k = x)) as [->|Hne].
      * rewrite Hx. reflexivity.
      * assert (bool_decide (k ∈ x :: rest) = bool_decide (k ∈ rest)) as ->.
        { apply bool_decide_ext. rewrite elem_of_cons. tauto. }
        reflexivity.
Qed.

Lemma monitor_action_state cfg keys aids act (w : World) (k : string) :
  STATE (snd (monitor_action cfg keys aids act w)) !! k =
  if bool_decide (act_type act = "reset_points")
     && Str.contains (default "" (act_match act)) k
     && bool_decide (k ∈ keys)
  then Some (cooling_reset cfg) else STATE w !! k.
Proof.
  unfold monitor_action.
  destruct (decide (act_type act = "reset_points")) as [Hr|Hr].
  - rewrite (bool_decide_eq_true_2 _ Hr). cbn [andb]. apply reset_points_state.
  - rewrite (bool_decide_eq_false_2 _ Hr). cbn [andb].
    destruct (decide (act_type act = "revoke_capabilities")); [reflexivity|].
    destruct (decide (act_type act = "terminate_apps")); [|reflexivity].
    pose proof (terminate_apps_state aids w) as Hk. inversion Hk as [[Hs Hd]].
    rewrite Hs. reflexivity.
Qed.

Lemma monitor_actions_state cfg keys aids acts (w : World) (k : string) :
  STATE (snd (monitor_actions cfg keys aids acts w)) !! k =
  if existsb (fun act => bool_decide (act_type act = "reset_points")
                         && Str.contains (default "" (act_match act)) k) acts
     && bool_decide (k ∈ keys)
  then Some (cooling_reset cfg) else STATE w !! k.
Proof.
  revert w. induction acts as [|act rest IH]; intros w;
    cbn [monitor_actions existsb]; [reflexivity|].
  rewrite bind_unit by apply monitor_action_total.
  rewrite IH, monitor_action_state.
  destruct (bool_decide (act_type act = "reset_points")
            && Str.contains (default "" (act_match act)) k);
    destruct (existsb _ rest); destruct (bool_decide (k ∈ keys)); reflexivity.
Qed.

Lemma monitor_actions_logs cfg keys aids acts :
  keeps (fun w => (txlog (DB w), shadowlog (DB w)))
        (monitor_actions cfg keys aids acts).
Proof.
  induction acts as [|act rest IH]; cbn [monitor_actions]; [apply keeps_ret|].
  apply keeps_bind; [|intros _; exact IH].
  intros w. unfold monitor_action.
  destruct (decide (act_type act = "reset_points")).
  - pose proof (reset_points_apps keys (default "" (act_match act))
                  (cooling_reset cfg) w) as Hk.
    inversion Hk as [[Ha Hkeys Htx Hsh]]. rewrite Htx, Hsh. reflexivity.
  - destruct (decide (act_type act = "revoke_capabilities")); [reflexivity|].
    destruct (decide (act_type act = "terminate_apps")); [|reflexivity].
    pose proof (terminate_apps_state aids w) as Hk. inversion Hk as [[Hs Hd]].
    rewrite Hd. reflexivity.
Qed.

(** X18: when a window reaches the threshold, every stored point whose
    label contains the ["match"] of some [reset_points] action ends at the
    configured reset value and every other point keeps its value; these
    resets leave no row in the transaction log or the shadow log. *)
Theorem remediation_resets_matching_points (cfg : MonitorCfg) (cnt : Z)
        (keys aids : list string) (w : World) :
  threshold_count cfg <= cnt ->
  (forall k, k ∈ keys <-> is_Some (STATE w !! k)) ->
  let w' := snd (monitor_window_end cfg cnt keys aids w) in
  (forall k, STATE w' !! k =
             if is_reset cfg k
             then (fun _ => cooling_reset cfg) <$> STATE w !! k
             else STATE w !! k) /\
  txlog (DB w') = txlog (DB w) /\
  shadowlog (DB w') = shadowlog (DB w).
Proof.
  intros Hc Hkeys. cbn zeta. rewrite monitor_window_end_unfold by exact Hc.
  cbn [snd]. split.
  - intros k. rewrite monitor_actions_state. unfold is_reset.
    destruct (existsb _ (actions cfg)); cbn [andb]; [|reflexivity].
    destruct (bool_decide_reflect (k ∈ keys)) as [Hin|Hnin].
    + apply Hkeys in Hin as [v Hv]. rewrite Hv. reflexivity.
    + destruct (STATE w !! k) as [v|] eqn:Hv; [|reflexivity].
      exfalso. apply Hnin. apply Hkeys. exists v. exact Hv.
  - pose proof (monitor_actions_logs cfg keys aids (actions cfg) w) as Hk.
    inversion Hk. split; reflexivity.
Qed.

Lemma registry_ok_ext (w w' : World) :
  APPS w' = APPS w -> APP_KEYS w' = APP_KEYS w ->
  registry_ok w -> registry_ok w'.
Proof. unfold registry_ok. intros -> ->. tauto. Qed.

Lemma monitor_action_registry cfg keys aids act (w : World) :
  registry_ok w ->
  registry_ok (snd (monitor_action cfg keys aids act w)) /\
  (forall a, is_Some (APPS (snd (monitor_action cfg keys aids act w)) !! a) ->
             is_Some (APPS w !! a)) /\
  (act_type act = "terminate_apps" ->
   forall a, a ∈ aids ->
             APPS (snd (monitor_action cfg keys aids act w)) !! a = None).
Proof.
  intros Hok. unfold monitor_action.
  destruct (decide (act_type act = "reset_points")) as [Hr|_].
  - pose proof (reset_points_apps keys (default "" (act_match act))
                  (cooling_reset cfg) w) as Hk.
    inversion Hk as [[Ha Hkeys Htx Hsh]].
    split; [apply (registry_ok_ext w); assumption|].
    split; [intros a; rewrite Ha; tauto|].
    intros Hterm. rewrite Hr in Hterm. discriminate Hterm.
  - destruct (decide (act_type act = "revoke_capabilities")) as [Hv|_].
    + cbn. split; [|split].
      * destruct Hok as [H1 H2]. split; cbn.
        -- intros k a Hka. destruct (H1 _ _ Hka) as [-> Hs].
           split; [reflexivity|]. rewrite lookup_fmap. apply fmap_is_Some. exact Hs.
        -- intros a inst. rewrite lookup_fmap.
           destruct (APPS w !! a) as [i|] eqn:Hi; cbn; [|discriminate].
           intros Heq. inversion Heq. cbn. exact (H2 _ _ Hi).
      * intros a. rewrite lookup_fmap. apply fmap_is_Some.
      * intros Hterm. rewrite Hv in Hterm. discriminate Hterm.
    + destruct (decide (act_type act = "terminate_apps")) as [_|Hnt].
      * split; [apply terminate_apps_registry; exact Hok|]. split.
        -- intros a. rewrite terminate_apps_lookup.
           destruct (decide (a ∈ aids)); [intros [x Hx]; discriminate Hx|tauto].
        -- intros _ a Hin. rewrite terminate_apps_lookup.
           destruct (decide (a ∈ aids)); [reflexivity|contradiction].
      * cbn. split; [exact Hok|]. split; [tauto|]. intros Ht. contradiction.
Qed.

Lemma monitor_actions_registry cfg keys aids acts (w : World) :
  registry_ok w ->
  (forall a, is_Some (APPS w !! a) -> a ∈ aids) ->
  let w' := snd (monitor_actions cfg keys aids acts w) in
  registry_ok w' /\
  (forall a, is_Some (APPS w' !! a) -> is_Some (APPS w !! a)) /\
  (Exists (fun act => act_type act = "terminate_apps") acts -> APPS w' = ∅).
Proof.
  revert w. induction acts as [|act rest IH]; intros w Hok Hcov; cbn zeta;
    cbn [monitor_actions].
  - split; [exact Hok|]. split; [tauto|]. intros Hex. inversion Hex.
  - rewrite bind_unit by apply monitor_action_total.
    destruct (monitor_action_registry cfg keys aids act w Hok) as (Hok1 & Hd1 & Ht1).
    destruct (IH _ Hok1) as (Hok2 & Hd2 & Ht2).
    { intros a Ha. apply Hcov, Hd1, Ha. }
    cbn zeta in Hok2, Hd2, Ht2.
    split; [exact Hok2|]. split; [intros a Ha; apply Hd1, Hd2, Ha|].
    intros Hex. apply Exists_cons in Hex as [Hterm|Hex]; [|exact (Ht2 Hex)].
    apply map_empty. intros a.
    destruct (APPS (snd (monitor_actions cfg keys aids rest _)) !! a) as [i|] eqn:Hi;
      [|reflexivity].
    exfalso. assert (is_Some (APPS (snd (monitor_action cfg keys aids act w)) !! a))
      as [x Hx] by (apply Hd2; exists i; exact Hi).
    rewrite (Ht1 Hterm a) in Hx; [discriminate Hx|].
    apply Hcov, Hd1. exists x. exact Hx.
Qed.

(** X19: when a window reaches the threshold and the configured actions
    include [terminate_apps], a consistent registry ends empty: no instance
    and no key is left, and every later write, under whatever key, is turned
    away at authentication without any change. *)
Theorem termination_empties_registry (cfg : MonitorCfg) (cnt : Z)
        (keys aids : list string) (w : World) :
  threshold_count cfg <= cnt ->
  registry_ok w ->
  (forall a, is_Some (APPS w !! a) -> a ∈ aids) ->
  Exists (fun act => act_type act = "terminate_apps") (actions cfg) ->
  let w' := snd (monitor_window_end cfg cnt keys aids w) in
  APPS w' = ∅ /\ APP_KEYS w' = ∅ /\
  forall (req : WriteReq) (k : option string),
    write req k w' = (Raise (HTTPException 401 "Missing X-App-Key"), w') \/
    write req k w' = (Raise (HTTPException 403 "Invalid X-App-Key"), w').
Proof.
  intros Hc Hok Hcov Hex. cbn zeta. rewrite monitor_window_end_unfold by exact Hc.
  cbn [snd].
  destruct (monitor_actions_registry cfg keys aids (actions cfg) w Hok Hcov)
    as ([H1 _] & _ & Hempty).
  cbn zeta in H1, Hempty. specialize (Hempty Hex).
  set (w' := snd (monitor_actions cfg keys aids (actions cfg) w)) in *.
  assert (APP_KEYS w' = ∅) as Hkeys.
  { apply map_empty. intros k.
    destruct (APP_KEYS w' !! k) as [a|] eqn:Hk; [|reflexivity].
    destruct (H1 _ _ Hk) as [_ [i Hi]]. rewrite Hempty, lookup_empty in Hi.
    discriminate Hi. }
  split; [exact Hempty|]. split; [exact Hkeys|].
  intros req k. unfold write, write_admission, get_app_instance_from_key.
  destruct k as [[|c s]|]; [left; reflexivity| |left; reflexivity].
  right. unfold bind at 1 2 3. unfold gets at 1. cbn [fst snd].
  rewrite Hkeys, lookup_empty. reflexivity.
Qed.

(** ** Validators *)

Lemma py_int_nonneg (x : Q) : 0 <= Qnum x -> Num.py_int x = Qfloor x.
Proof.
  intros Hn. destruct x as [n d]. unfold Num.py_int, Qfloor. cbn in *.
  apply Z.quot_div_nonneg; lia.
Qed.

Lemma py_int_nonpos (x : Q) : Qnum x <= 0 -> Num.py_int x = Qceiling x.
Proof.
  intros Hn. destruct x as [n d]. unfold Num.py_int, Qceiling, Qfloor. cbn in *.
  rewrite <- (Z.opp_involutive n) at 1. rewrite Z.quot_opp_l by lia.
  f_equal. apply Z.quot_div_nonneg; lia.
Qed.

Lemma py_int_mono (x y : Q) : (x <= y)%Q -> Num.py_int x <= Num.py_int y.
Proof.
  intros Hle.
  destruct (Z.le_gt_cases 0 (Qnum x)) as [Hx|Hx].
  - assert (0 <= Qnum y) as Hy.
    { unfold Qle in Hle. destruct x as [nx dx], y as [ny dy]. cbn in *. nia. }
    rewrite (py_int_nonneg x Hx), (py_int_nonneg y Hy).
    apply Qfloor_resp_le. exact Hle.
  - destruct (Z.le_gt_cases (Qnum y) 0) as [Hy|Hy].
    + rewrite (py_int_nonpos x) by lia. rewrite (py_int_nonpos y Hy).
      apply Qceiling_resp_le. exact Hle.
    + rewrite (py_int_nonpos x) by lia. rewrite (py_int_nonneg y) by lia.
      transitivity 0.
      * change 0 with (Qceiling 0). apply Qceiling_resp_le.
        unfold Qle. cbn. lia.
      * change 0 with (Qfloor 0). apply Qfloor_resp_le.
        unfold Qle. cbn. lia.
Qed.

Lemma gtb_false_iff (x y : Q) : Num.gtb x y = false <-> (x <= y)%Q.
Proof.
  unfold Num.gtb, Num.ltb. rewrite negb_false_iff. apply Qle_bool_iff.
Qed.

Lemma ltb_true_iff (x y : Q) : Num.ltb x y = true <-> (x < y)%Q.
Proof.
  unfold Num.ltb. rewrite negb_true_iff. rewrite <- not_true_iff_false.
  rewrite Qle_bool_iff. split; [apply Qnot_le_lt|apply Qlt_not_le].
Qed.

(** X20: the energy check is upward closed: with a per-degree wattage that
    is not negative, a value that is accepted stays accepted when it is
    raised, for the same label and constraints. *)
Theorem energy_budget_upward_closed (w : World) (cls label : string)
        (v v' : Q) (prev prev' : option Q) :
  (0 <= default 150 (get_constraints w !! "energy_per_degree_watts"))%Q ->
  (v <= v')%Q ->
  fst (v_energy_budget w cls label v prev) = true ->
  fst (v_energy_budget w cls label v' prev') = true.
Proof.
  unfold v_energy_budget.
  set (c := get_constraints w).
  set (pd := default 150%Q (c !! "energy_per_degree_watts")).
  set (watts := default 5000%Q (c !! "energy_budget_watts")).
  set (lowest := default 20%Q (c !! "min_cool_setpoint")).
  intros Hpd Hle.
  destruct (Str.contains "Cool_SP" label); cbn [andb]; [|reflexivity].
  destruct (Num.ltb v' lowest) eqn:Hv'; [|reflexivity].
  assert (Num.ltb v lowest = true) as ->.
  { apply ltb_true_iff. apply ltb_true_iff in Hv'.
    eapply Qle_lt_trans; eassumption. }
  destruct (Num.gtb (inject_Z (Num.py_int ((20 - v) * pd))) watts) eqn:Hg;
    [discriminate|]. intros _.
  apply gtb_false_iff in Hg.
  assert (Num.gtb (inject_Z (Num.py_int ((20 - v') * pd))) watts = false) as ->;
    [|reflexivity].
  apply gtb_false_iff. eapply Qle_trans; [|exact Hg].
  rewrite <- Zle_Qle. apply py_int_mono.
  apply Qmult_le_compat_r; [|exact Hpd].
  unfold Qminus. apply Qplus_le_r. apply Qopp_le_compat. exact Hle.
Qed.

(** ** Class names *)

Lemma contains_hash_cons (c : ascii) (r : string) :
  Str.contains "#" (String c r) = Ascii.eqb c "#" || Str.contains "#" r.
Proof.
  cbn [Str.contains String.prefix].
  destruct (ascii_dec "#" c) as [<-|Hne].
  - destruct r; reflexivity.
  - destruct (Ascii.eqb_spec c "#") as [->|_]; [contradiction|reflexivity].
Qed.

Lemma contains_hash_app (a b : string) :
  Str.contains "#" (a +:+ b) = Str.contains "#" a || Str.contains "#" b.
Proof.
  induction a as [|c a IH]; [reflexivity|].
  change (String c a +:+ b) with (String c (a +:+ b)).
  rewrite !contains_hash_cons, IH, orb_assoc. reflexivity.
Qed.

Lemma last_piece_no_hash (s acc : string) :
  Str.contains "#" acc = false ->
  Str.contains "#" (Str.last_piece "#" acc s) = false.
Proof.
  revert acc. induction s as [|c s IH]; intros acc Hacc; cbn [Str.last_piece];
    [exact Hacc|].
  destruct (Ascii.eqb c "#") eqn:Hc.
  - apply IH. reflexivity.
  - apply IH. rewrite contains_hash_app, Hacc, contains_hash_cons, Hc.
    reflexivity.
Qed.

Lemma local_name_no_hash (cls : string) :
  Str.contains "#" (Str.local_name cls) = false.
Proof.
  unfold Str.local_name. destruct (Str.contains "#" cls) eqn:Hc; [|exact Hc].
  apply last_piece_no_hash. reflexivity.
Qed.

Lemma local_name_idem (cls : string) :
  Str.local_name (Str.local_name cls) = Str.local_name cls.
Proof.
  unfold Str.local_name at 1. rewrite local_name_no_hash. reflexivity.
Qed.

(** X21: chains and guards depend on the local name of the class only: the
    part after the last [#] never contains a [#], and giving a class by that
    part or by its full IRI selects the same enforced chain, the same shadow
    chain and the same results of [range] and [rate]. *)
Theorem class_is_read_by_local_name (w : World) (cls : string) :
  Str.contains "#" (Str.local_name cls) = false /\
  get_validators_for_class w (Str.local_name cls) =
    get_validators_for_class w cls /\
  get_shadow_validators_for_class w (Str.local_name cls) =
    get_shadow_validators_for_class w cls /\
  (forall label v prev,
      v_range w (Str.local_name cls) label v prev = v_range w cls label v prev /\
      v_rate w (Str.local_name cls) label v prev = v_rate w cls label v prev).
Proof.
  split; [apply local_name_no_hash|].
  unfold get_validators_for_class, get_shadow_validators_for_class,
    v_range, v_rate.
  rewrite local_name_idem. repeat split; reflexivity.
Qed.

(** ** The rate bucket *)

(** X22: the rate gate keeps the bucket within its bounds: from a bucket
    with [0 <= tokens <= limit] it stores a bucket of the same limit, in the
    current minute, again with [0 <= tokens <= limit]; it lets the request
    pass exactly when it has counted one more token, and when it refuses the
    stored bucket is full. *)
Theorem token_bucket_keeps_bounds (aid : string) (inst : Instance)
        (b : Bucket) (w : World) :
  rate inst = Some b ->
  0 <= tokens b <= limit b ->
  exists (ok : bool) (b' : Bucket) (w' : World),
    token_bucket_ok aid inst w = (Return ok, w') /\
    bucket_of w' aid = Some b' /\
    limit b' = limit b /\
    win b' = Num.minute_of (clock (ticks w)) /\
    0 <= tokens b' <= limit b' /\
    (ok = true ->
     tokens b' = (if decide (Num.minute_of (clock (ticks w)) = win b)
                  then tokens b else 0) + 1) /\
    (ok = false -> tokens b' = limit b').
Proof.
  intros Hrate Hb.
  unfold token_bucket_ok, bind at 1, time_time. cbn [fst snd]. rewrite Hrate.
  destruct (decide (Num.minute_of (clock (ticks w)) = win b)) as [Hw|Hw].
  - destruct (Z.geb_spec (tokens b) (limit b)) as [Hge|Hlt].
    + exists false, b. eexists. split; [reflexivity|].
      unfold bucket_of. cbn [APPS with_APPS with_ticks].
      rewrite lookup_insert_eq. cbn [rate with_rate tokens limit win].
      split; [reflexivity|]. split; [reflexivity|]. split; [symmetry; exact Hw|].
      cbn [tokens limit win]. split; [lia|]. split; [discriminate|]. intros _. lia.
    + eexists true, _, _. split; [reflexivity|].
      unfold bucket_of. cbn [APPS with_APPS with_ticks].
      rewrite lookup_insert_eq. cbn [rate with_rate tokens limit win].
      split; [reflexivity|]. split; [reflexivity|]. split; [symmetry; exact Hw|].
      cbn [tokens limit win]. split; [lia|]. split; [reflexivity|discriminate].
  - cbn [tokens limit win].
    destruct (Z.geb_spec 0 (limit b)) as [Hge|Hlt].
    + eexists false, _, _. split; [reflexivity|].
      unfold bucket_of. cbn [APPS with_APPS with_ticks].
      rewrite lookup_insert_eq. cbn [rate with_rate tokens limit win].
      split; [reflexivity|]. split; [reflexivity|]. split; [reflexivity|].
      cbn [tokens limit win]. split; [lia|]. split; [discriminate|]. intros _. lia.
    + eexists true, _, _. split; [reflexivity|].
      unfold bucket_of. cbn [APPS with_APPS with_ticks].
      rewrite lookup_insert_eq. cbn [rate with_rate tokens limit win].
      split; [reflexivity|]. split; [reflexivity|]. split; [reflexivity|].
      cbn [tokens limit win]. split; [lia|]. split; [reflexivity|discriminate].
Qed.

(** ** Promotion, again *)

(** X23: promotion copies, it does not move: the shadow chain of the class
    is still in place afterwards, and promoting a second time appends the
    same validators once more (with equal positions read in rowid order, the
    enforced chain is then the old chain followed by the shadow chain
    twice). *)
Theorem repeated_promotion_duplicates (cls : string) (w : World) :
  let sv := get_shadow_validators_for_class w cls in
  let w1 := snd (admin_promote_shadow cls w) in
  let w2 := snd (admin_promote_shadow cls w1) in
  sv <> [] ->
  get_shadow_validators_for_class w1 cls = sv /\
  fst (admin_promote_shadow cls w1) =
    Return {| promote_ok := true; promoted := sv;
              promoted_class := Str.local_name cls |} /\
  get_validators_for_class w2 cls = get_validators_for_class w cls ++ sv ++ sv.
Proof.
  cbn zeta. intros Hsv.
  unfold get_shadow_validators_for_class, get_validators_for_class in *.
  destruct (promote_shadow_appends cls w Hsv) as (new1 & Hrun1 & _ & Happ1 & _).
  rewrite Hrun1. cbn [snd].
  set (w1 := with_DB (with_validators (validators (DB w) ++ new1) (DB w)) w) in *.
  assert (shadow_validators (DB w1) = shadow_validators (DB w)) as Hsh
    by reflexivity.
  destruct (promote_shadow_appends cls w1) as (new2 & Hrun2 & _ & Happ2 & _).
  { rewrite Hsh. exact Hsv. }
  rewrite Hsh in Hrun2, Happ2. rewrite Hrun2. cbn [fst snd].
  split; [rewrite Hsh; reflexivity|]. split; [reflexivity|].
  cbn [DB validators with_DB with_validators].
  rewrite Happ2.
  change (validators (DB w1)) with (validators (DB w) ++ new1).
  rewrite Happ1, <- app_assoc. reflexivity.
Qed.

(** ** Reload *)

Lemma compute_caps_reads (w w' : World) (man : Manifest) :
  G w' = G w -> PROFILES w' = PROFILES w -> USERS w' = USERS w ->
  compute_caps w' man = compute_caps w man.
Proof.
  intros Hg Hp Hu. unfold compute_caps, render_profile, user_caps.
  rewrite Hg, Hp, Hu. reflexivity.
Qed.

Lemma recompute_caps_spec (aids : list string) (w : World) :
  NoDup aids ->
  (forall a inst, a ∈ aids -> APPS w !! a = Some inst ->
                  exists cs, compute_caps w (manifest inst) = Return cs) ->
  exists w',
    recompute_caps aids w = (Return tt, w') /\
    G w' = G w /\ PROFILES w' = PROFILES w /\ USERS w' = USERS w /\
    APP_KEYS w' = APP_KEYS w /\ STATE w' = STATE w /\ DB w' = DB w /\
    forall a,
      APPS w' !! a =
      match APPS w !! a with
      | None => None
      | Some inst =>
          if decide (a ∈ aids) then
            match compute_caps w (manifest inst) with
            | Return cs => Some (with_caps cs inst)
            | Raise _ => Some inst
            end
          else Some inst
      end.
Proof.
  revert w. induction aids as [|x rest IH]; intros w Hnd Hok.
  - exists w. split; [reflexivity|]. repeat split; try reflexivity.
    intros a. destruct (APPS w !! a); [|reflexivity].
    destruct (decide (a ∈ [])) as [Hin|_]; [inversion Hin|reflexivity].
  - apply NoDup_cons in Hnd as [Hx Hnd]. cbn [recompute_caps].
    unfold bind at 1, gets at 1. cbn [fst snd].
    destruct (APPS w !! x) as [inst|] eqn:Hinst.
    + destruct (Hok x inst) as [cs Hcs]; [left|exact Hinst|].
      unfold bind at 1, lift. cbn [fst snd]. rewrite Hcs.
      unfold bind at 1, modify. cbn [fst snd].
      set (w1 := with_APPS (<[x := with_caps cs inst]> (APPS w)) w).
      destruct (IH w1 Hnd) as (w' & Hrun & Hg & Hp & Hu & Hk & Hs & Hd & Ha).
      { intros a i Hin. unfold w1. cbn [APPS with_APPS].
        rewrite lookup_insert_ne by (intros ->; contradiction).
        intros Hi. rewrite (compute_caps_reads w w1) by reflexivity.
        apply (Hok a i); [right; exact Hin|exact Hi]. }
      exists w'. split; [exact Hrun|]. repeat split; try assumption.
      intros a. rewrite Ha. unfold w1. cbn [APPS with_APPS].
      destruct (decide (a = x)) as [->|Hne].
      * rewrite lookup_insert_eq, Hinst.
        destruct (decide (x ∈ rest)); [contradiction|].
        destruct (decide (x ∈ x :: rest)) as [_|Hn]; [|exfalso; apply Hn; left].
        rewrite Hcs. reflexivity.
      * rewrite lookup_insert_ne by congruence.
        destruct (APPS w !! a) as [i|]; [|reflexivity].
        rewrite (compute_caps_reads w w1) by reflexivity.
        destruct (decide (a ∈ rest)) as [Hin|Hnin].
        -- destruct (decide (a ∈ x :: rest)) as [_|Hn]; [reflexivity|].
           exfalso. apply Hn. right. exact Hin.
        -- destruct (decide (a ∈ x :: rest)) as [Hin|_]; [|reflexivity].
           apply elem_of_cons in Hin as [?|?]; contradiction.
    + destruct (IH w Hnd) as (w' & Hrun & Hg & Hp & Hu & Hk & Hs & Hd & Ha).
      { intros a i Hin. apply Hok. right. exact Hin. }
      exists w'. split; [exact Hrun|]. repeat split; try assumption.
      intros a. rewrite Ha. destruct (APPS w !! a) as [i|] eqn:Hi; [|reflexivity].
      destruct (decide (a ∈ rest)) as [Hin|Hnin].
      * destruct (decide (a ∈ x :: rest)) as [_|Hn]; [reflexivity|].
        exfalso. apply Hn. right. exact Hin.
      * destruct (decide (a ∈ x :: rest)) as [Hin|_]; [|reflexivity].
        apply elem_of_cons in Hin as [->|?]; [congruence|contradiction].
Qed.

(** X24: a reload whose capability computations all succeed returns, keeps
    every instance with its manifest, key, user, pid and rate bucket, and
    gives each instance the capabilities that [compute_caps] derives from
    its manifest in the reloaded state, whatever its capabilities were: a
    write capability that the monitor had revoked is back after a reload.
    Keys and stored values are not touched. *)
Theorem reload_recomputes_capabilities (f : Files) (aids : list string)
        (w : World) :
  let wl := snd (load_all f w) in
  NoDup aids ->
  (forall a, a ∈ aids <-> is_Some (APPS w !! a)) ->
  (forall a inst, APPS w !! a = Some inst ->
                  exists cs, compute_caps wl (manifest inst) = Return cs) ->
  exists w',
    admin_reload f aids w = (Return true, w') /\
    APP_KEYS w' = APP_KEYS w /\ STATE w' = STATE w /\
    (forall a, APPS w !! a = None -> APPS w' !! a = None) /\
    (forall a inst, APPS w !! a = Some inst ->
       exists cs, compute_caps wl (manifest inst) = Return cs /\
                  APPS w' !! a = Some (with_caps cs inst)).
Proof.
  cbn zeta. intros Hnd Hcov Hok.
  unfold admin_reload. rewrite bind_unit by reflexivity.
  set (wl := snd (load_all f w)) in *.
  destruct (recompute_caps_spec aids wl Hnd)
    as (w' & Hrun & _ & _ & _ & Hk & Hs & _ & Ha).
  { intros a inst _ Hi. apply (Hok a inst). exact Hi. }
  unfold bind at 1. rewrite Hrun. cbn [fst snd ret].
  exists w'. split; [reflexivity|]. split; [exact Hk|]. split; [exact Hs|].
  split.
  - intros a Hnone. rewrite Ha. change (APPS wl) with (APPS w).
    rewrite Hnone. reflexivity.
  - intros a inst Hi. destruct (Hok a inst Hi) as [cs Hcs].
    exists cs. split; [exact Hcs|]. rewrite Ha. change (APPS wl) with (APPS w).
    rewrite Hi, Hcs.
    destruct (decide (a ∈ aids)) as [_|Hn]; [reflexivity|].
    exfalso. apply Hn. apply Hcov. exists inst. exact Hi.
Qed.

(** The keys of a dictionary, listed: what [list(d.keys())] gives, in some
    order. *)
Lemma keys_enumerate {A : Type} (m : gmap string A) :
  NoDup (map fst (map_to_list m)) /\
  forall k, k ∈ map fst (map_to_list m) <-> is_Some (m !! k).
Proof.
  split; [apply NoDup_fst_map_to_list|].
  intros k. rewrite list_elem_of_fmap. split.
  - intros ([k' v] & -> & Hin). apply elem_of_map_to_list in Hin.
    exists v. exact Hin.
  - intros [v Hv]. exists (k, v). split; [reflexivity|].
    apply elem_of_map_to_list. exact Hv.
Qed.

(** X25: the remediation removes what the monitor counts: when every label
    that contains Cool_SP is matched by a [reset_points] action and the reset
    value is not below the minimum, the next pass of the monitor over the
    state counts no point. *)
Theorem remediation_clears_low_cooling (cfg : MonitorCfg) (cnt : Z)
        (keys aids : list string) (w : World) :
  threshold_count cfg <= cnt ->
  (forall k, k ∈ keys <-> is_Some (STATE w !! k)) ->
  (forall k, Str.contains "Cool_SP" k = true -> is_reset cfg k = true) ->
  (cooling_min cfg <= cooling_reset cfg)%Q ->
  monitor_sample (cooling_min cfg)
    (STATE (snd (monitor_window_end cfg cnt keys aids w))) = 0.
Proof.
  intros Hc Hkeys Hall Hle. rewrite monitor_window_end_unfold by exact Hc.
  cbn [snd]. unfold monitor_sample.
  replace 0 with (Z.of_nat 0) by reflexivity. f_equal.
  apply map_size_empty_iff. apply map_empty. intros k.
  apply map_lookup_filter_None. right. intros v Hv [Hk Hlow].
  cbn [fst snd] in Hk, Hlow.
  rewrite monitor_actions_state in Hv.
  pose proof (Hall k Hk) as Hr. unfold is_reset in Hr. rewrite Hr in Hv.
  cbn [andb] in Hv.
  destruct (bool_decide_reflect (k ∈ keys)) as [Hin|Hnin].
  - inversion Hv; subst v. apply ltb_true_iff in Hlow.
    apply Qlt_not_le in Hlow. apply Hlow. exact Hle.
  - apply Hnin. apply Hkeys. exists v. exact Hv.
Qed.

End Server.

(** ** The handlers on the sample installation *)

(** C1 as stated fails: with delegation ["augmented"] the result is
    intersected with the user's sets; for a user without stored queries it
    is empty, not the profile-derived set. *)
Lemma compute_caps_augmented_is_intersected :
  ~ (forall (w : World) (man : Manifest) (q : string)
            (us : gmap string (gmap string string)),
        delegation man = "augmented" ->
        render_profile Sample.render w (profile man) (args man) = Return q ->
        compute_caps Sample.render (with_USERS us w) man =
          Return {| cap_read := query_iris (G w) q;
                    cap_write := if default false (permissions man !! "write")
                             then query_iris (G w) q else [] |}).
Proof.
  intros H.
  specialize (H (Sample.world (Sample.db ∅ [] [])) (Sample.man "augmented" "bob")
                "SELECT ?pt WHERE { ?pt a brick:Cooling_Setpoint . }"
                Sample.users eq_refl eq_refl).
  vm_compute in H. discriminate H.
Qed.

Lemma compute_caps_augmentation_witness :
  compute_caps Sample.render
    (with_USERS Sample.users (Sample.world (Sample.db ∅ [] [])))
    (Sample.man "augmentation" "bob") =
  Return {| cap_read := [Sample.zoneA; Sample.zoneB];
            cap_write := [Sample.zoneA; Sample.zoneB] |}.
Proof.
  exact (compute_caps_augmentation Sample.render
           (Sample.world (Sample.db ∅ [] [])) (Sample.man "augmentation" "bob")
           "SELECT ?pt WHERE { ?pt a brick:Cooling_Setpoint . }"
           Sample.users eq_refl eq_refl).
Defined.

Lemma compute_caps_delegated_witness :
  exists c : Caps,
    compute_caps Sample.render (Sample.world (Sample.db ∅ [] []))
                 (Sample.man "delegated" "alice") = Return c /\
    (forall i, i ∈ cap_write c <->
               i ∈ [Sample.zoneA; Sample.zoneB] /\ i ∈ [Sample.zoneA]).
Proof.
  destruct (compute_caps_delegated Sample.render
              (Sample.world (Sample.db ∅ [] [])) (Sample.man "delegated" "alice")
              "SELECT ?pt WHERE { ?pt a brick:Cooling_Setpoint . }"
              eq_refl eq_refl) as (c & Hc & Hw & _).
  exists c. split; [exact Hc|exact Hw].
Defined.

(** C2: the estimate is taken from the fixed 20.0, not from the configured
    minimum.  With [min_cool_setpoint = 22], 150 W per degree and a budget of
    300 W, a cooling setpoint of 19 needs [(22 - 19) * 150 = 450 > 300] and is
    to be rejected; the validator computes [(20 - 19) * 150 = 150] and
    accepts. *)
Theorem energy_budget_uses_fixed_minimum :
  let w := Sample.world
             (Sample.db (<["min_cool_setpoint" := 22%Q]>
                           (<["energy_per_degree_watts" := 150%Q]>
                              {[ "energy_budget_watts" := 300%Q ]})) [] []) in
  v_energy_budget w Sample.cooling "F1_ZoneA_Cool_SP" 19%Q None = (true, "ok") /\
  energy_budget_as_specified w "F1_ZoneA_Cool_SP" 19%Q = false.
Proof. split; vm_compute; reflexivity. Qed.

(** C3: promoting onto an enforced chain of one entry at position 0 inserts
    the promoted entry at position 0 again ([MAX(position)] is 0, which
    [or -1] replaces by -1): the promoted row is not after the existing one,
    and the rows read in ascending position may also come out as
    [comfort_band] before [range]. *)
Theorem promote_shadow_reuses_position_zero :
  let w := Sample.world
             (Sample.db ∅ [Sample.row 0 "range"] [Sample.row 0 "comfort_band"]) in
  admin_promote_shadow "Cooling_Setpoint" w =
    (Return {| promote_ok := true; promoted := ["comfort_band"];
               promoted_class := "Cooling_Setpoint" |},
     with_DB (with_validators
                [Sample.row 0 "range"; Sample.row 0 "comfort_band"] (DB w)) w) /\
  (exists rows : list VRow,
      Permutation
        (rows_of_class "Cooling_Setpoint"
           [Sample.row 0 "range"; Sample.row 0 "comfort_band"]) rows /\
      StronglySorted by_position rows /\
      map vtype rows = ["comfort_band"; "range"]).
Proof.
  split; [reflexivity|].
  exists [Sample.row 0 "comfort_band"; Sample.row 0 "range"].
  split; [apply perm_swap|]. split; [|reflexivity].
  repeat constructor; unfold by_position; cbn; lia.
Qed.

Lemma rate_limit_window_witness :
  exists (outs : list (result WriteResp)) (w' : World),
    write_attempts Sample.the_clock Sample.show (Some "key_comfort-1")
                   [Sample.req 22.5; Sample.req 30]
                   (Sample.world (Sample.db ∅ [Sample.row 0 "range"] [])) =
      (outs, w') /\
    Forall (fun o => o <> Raise rate_limited) outs /\
    bucket_of w' "comfort-1" = Some {| limit := 2; tokens := 2; win := 2 |} /\
    exists w'' : World,
      write Sample.the_clock Sample.show (Sample.req 23)
                    (Some "key_comfort-1") w' = (Raise rate_limited, w'') /\
      bucket_of w'' "comfort-1" = bucket_of w' "comfort-1".
Proof.
  destruct (rate_limit_window Sample.the_clock Sample.show
              "key_comfort-1" "comfort-1" Sample.inst
              {| limit := 2; tokens := 0; win := 2 |}
              [Sample.req 22.5; Sample.req 30]
              (Sample.world (Sample.db ∅ [Sample.row 0 "range"] [])))
    as [(outs & w' & Hrun & Hall & Hb & Hnext) _].
  - discriminate.
  - discriminate.
  - reflexivity.
  - reflexivity.
  - reflexivity.
  - reflexivity.
  - intros n _. reflexivity.
  - cbn. lia.
  - exists outs, w'. split; [exact Hrun|]. split; [exact Hall|].
    split; [exact Hb|]. apply Hnext. reflexivity.
Defined.

Lemma empty_chain_fails_closed_witness :
  fst (write Sample.the_clock Sample.show (Sample.req 23)
                     (Some "key_comfort-1")
                     (Sample.world (Sample.db ∅ [] []))) =
  Raise (HTTPException 400 "No validators configured").
Proof.
  rewrite (empty_chain_fails_closed Sample.the_clock Sample.show
             (Sample.req 23) (Some "key_comfort-1")
             (Sample.world (Sample.db ∅ [] []))
             (snd (write_admission Sample.the_clock (Sample.req 23)
                     (Some "key_comfort-1")
                     (Sample.world (Sample.db ∅ [] []))))
             "comfort-1" Sample.zoneA Sample.inst).
  - reflexivity.
  - vm_compute. reflexivity.
  - vm_compute. reflexivity.
Defined.

Lemma enforced_chain_short_circuits_witness :
  fst (write Sample.the_clock Sample.show (Sample.req 30)
                     (Some "key_comfort-1")
                     (Sample.world
                        (Sample.db ∅ [Sample.row 0 "energy_budget";
                                      Sample.row 1 "range";
                                      Sample.row 2 "rate"] []))) =
  Raise (HTTPException 400 ("Guard blocked: range 18–28")).
Proof.
  pose (w := Sample.world
               (Sample.db ∅ [Sample.row 0 "energy_budget"; Sample.row 1 "range";
                             Sample.row 2 "rate"] [])).
  destruct (enforced_chain_short_circuits Sample.the_clock Sample.show
              (Sample.req 30) (Some "key_comfort-1") w
              (snd (write_admission Sample.the_clock (Sample.req 30)
                      (Some "key_comfort-1") w))
              "comfort-1" Sample.zoneA Sample.inst
              ["energy_budget"] ["rate"] "range" "range 18–28") as [_ Hrun].
  - vm_compute. reflexivity.
  - vm_compute. reflexivity.
  - constructor; [|constructor].
    exists v_energy_budget. split; vm_compute; reflexivity.
  - exists (v_range Sample.show). split; vm_compute; reflexivity.
  - subst w. rewrite Hrun. reflexivity.
Defined.

Lemma shadow_chain_never_blocks_witness :
  exists (rows : list ShadowRow) (w2 : World),
    write Sample.the_clock Sample.show (Sample.req 26)
                  (Some "key_comfort-1")
                  (Sample.world
                     (Sample.db ∅ [Sample.row 0 "range"]
                                [Sample.row 0 "comfort_band"])) =
      (Return {| resp_ok := true; resp_point := "F1_ZoneA_Cool_SP";
                 resp_value := 26 |}, w2) /\
    map sh_vtype rows = ["comfort_band"] /\
    shadowlog (DB w2) = rows /\
    STATE w2 !! "F1_ZoneA_Cool_SP" = Some 26%Q.
Proof.
  pose (w := Sample.world
               (Sample.db ∅ [Sample.row 0 "range"] [Sample.row 0 "comfort_band"])).
  destruct (shadow_chain_never_blocks Sample.the_clock Sample.show
              (Sample.req 26) (Some "key_comfort-1") w
              (snd (write_admission Sample.the_clock (Sample.req 26)
                      (Some "key_comfort-1") w))
              "comfort-1" Sample.zoneA Sample.inst)
    as (rows & w2 & Hrun & Hrows & Hlog & Hstate & _).
  - vm_compute. reflexivity.
  - vm_compute. discriminate.
  - constructor; [|constructor].
    exists (v_range Sample.show). split; vm_compute; reflexivity.
  - constructor; [|constructor].
    exists (v_comfort_band Sample.show). vm_compute. reflexivity.
  - exists rows, w2. subst w. split; [exact Hrun|].
    split; [|split].
    + assert (map sh_vtype rows =
              map (fun x => snd (fst x)) (map shadow_finding rows)) as ->.
      { rewrite map_map. reflexivity. }
      rewrite Hrows. vm_compute. reflexivity.
    + rewrite Hlog. reflexivity.
    + rewrite Hstate. apply lookup_insert_eq.
Defined.

Lemma write_failure_leaves_proxy_witness :
  STATE (snd (write Sample.the_clock Sample.show (Sample.req 30)
                            (Some "key_comfort-1")
                            (Sample.world (Sample.db ∅ [Sample.row 0 "range"] []))))
  = STATE (Sample.world (Sample.db ∅ [Sample.row 0 "range"] [])) /\
  timeseries
    (DB (snd (write Sample.the_clock Sample.show (Sample.req 30)
                            (Some "key_comfort-1")
                            (Sample.world (Sample.db ∅ [Sample.row 0 "range"] [])))))
  = [].
Proof.
  apply (write_failure_leaves_proxy Sample.the_clock Sample.show
           (Sample.req 30) (Some "key_comfort-1")
           (Sample.world (Sample.db ∅ [Sample.row 0 "range"] []))
           (HTTPException 400 "Guard blocked: range 18–28")).
  vm_compute. reflexivity.
Defined.

(** ** Further runs on the sample installation *)

Lemma sample_registry_ok : registry_ok Site.world.
Proof.
  split.
  - intros k a Hk. cbn in Hk. apply lookup_singleton_Some in Hk as [<- <-].
    split; [reflexivity|]. eexists. reflexivity.
  - intros a i Hi. cbn in Hi. apply lookup_singleton_Some in Hi as [<- <-].
    reflexivity.
Defined.

Lemma write_commits_only_accepted_witness :
  STATE (snd (write Sample.the_clock Sample.show (Sample.req 22.5) Site.key
                    Site.world)) !! "F1_ZoneA_Cool_SP" = Some 22.5%Q.
Proof.
  assert (write Sample.the_clock Sample.show (Sample.req 22.5) Site.key Site.world
          = (Return {| resp_ok := true; resp_point := "F1_ZoneA_Cool_SP";
                       resp_value := 22.5 |},
             snd (write Sample.the_clock Sample.show (Sample.req 22.5) Site.key
                        Site.world))) as Hrun by (vm_compute; reflexivity).
  destruct (write_commits_only_accepted _ _ _ _ _ _ _ Hrun)
    as (k0 & aid & iri & inst & _ & _ & _ & _ & _ & _ & _ & Hst).
  exact Hst.
Defined.


Lemma unrecorded_rejections_witness :
  snd (write Sample.the_clock Sample.show (Sample.req 23) None Site.world)
  = Site.world.
Proof.
  destruct (unrecorded_rejections Sample.the_clock Sample.show
              (Sample.req 23) None Site.world 401 "Missing X-App-Key")
    as (_ & _ & Hsame).
  - reflexivity.
  - left. reflexivity.
  - apply Hsame. left. reflexivity.
Defined.

Lemma read_after_write_witness :
  fst (read Sample.the_clock "F1_ZoneA_Cool_SP" Site.key
            (snd (write Sample.the_clock Sample.show (Sample.req 22.5) Site.key
                        Site.world)))
  = Return {| read_point := "F1_ZoneA_Cool_SP"; read_value := Some 22.5%Q |}.
Proof.
  apply (read_after_write Sample.the_clock Sample.show (Sample.req 22.5)
           "key_comfort-1" "comfort-1" Sample.zoneA Sample.inst Site.world _
           {| resp_ok := true; resp_point := "F1_ZoneA_Cool_SP";
              resp_value := 22.5 |}).
  - vm_compute. reflexivity.
  - reflexivity.
  - reflexivity.
  - reflexivity.
  - vm_compute. left.
Defined.

Lemma registry_stays_consistent_witness :
  registry_ok (snd (write Sample.the_clock Sample.show (Sample.req 23) Site.key
                          Site.world)) /\
  registry_ok (snd (stop_app_instance "comfort-1" Site.world)).
Proof.
  destruct (registry_stays_consistent Sample.the_clock Sample.render Sample.show
              Site.world sample_registry_ok) as (_ & Hstop & Hwrite & _).
  split; [apply Hwrite|apply Hstop].
Defined.

Lemma registered_key_authenticates_witness :
  exists (info : StartInfo) (w' : World) (inst : Instance),
    start_app_instance Sample.the_clock Sample.render
                       (Sample.man "delegated" "alice") 4711 Site.world
      = (Return info, w') /\
    get_app_instance_from_key (Some (info_key info)) w'
      = (Return (app_instance_id info, inst), w') /\
    caps inst = {| cap_read := [Sample.zoneA]; cap_write := [Sample.zoneA] |}.
Proof.
  destruct (registered_key_authenticates Sample.the_clock Sample.render
              (Sample.man "delegated" "alice") 4711 Site.world
              {| cap_read := [Sample.zoneA]; cap_write := [Sample.zoneA] |})
    as (info & w' & inst & Hrun & _ & Hauth & _ & Hcaps & _).
  - vm_compute. reflexivity.
  - exists info, w', inst. repeat split; assumption.
Defined.

Lemma render_profile_checks_typed_args_witness :
  render_profile Sample.render (snd (load_all Site.files Site.world))
                 "zone_points" {[ "zone" := "ZoneB" ]}
  = Raise (HTTPException 400
             "Typed argument check failed: label 'ZoneB' is not a brick:HVAC_Zone").
Proof.
  destruct (render_profile_checks_typed_args Sample.render
              (snd (load_all Site.files Site.world))
              "zone_points"
              {| pf_args := [("zone", {| arg_type := Some "brick:HVAC_Zone" |})];
                 sparql := "SELECT ?pt WHERE { ?pt brick:isPointOf :ZoneA . }" |}
              {[ "zone" := "ZoneB" ]}) as [_ Hfail].
  - reflexivity.
  - apply (Hfail [] [] "zone" {| arg_type := Some "brick:HVAC_Zone" |}
                 "ZoneB" "brick:HVAC_Zone").
    + reflexivity.
    + constructor.
    + reflexivity.
    + reflexivity.
    + vm_compute. reflexivity.
Defined.

Lemma load_all_installs_policy_chains_witness :
  get_validators_for_class (snd (load_all Site.files Site.world)) Sample.cooling
  = ["range"; "rate"] /\
  get_shadow_validators_for_class (snd (load_all Site.files Site.world))
                                  Sample.cooling
  = ["comfort_band"].
Proof.
  destruct (load_all_installs_policy_chains Site.files Site.world Sample.cooling)
    as (He & _ & Hs & _).
  - apply NoDup_singleton.
  - apply NoDup_singleton.
  - split.
    + apply He. vm_compute. left.
    + apply Hs. vm_compute. left.
Defined.

Lemma load_all_label_maps_inverse_witness :
  LABEL2IRI (snd (load_all Site.files Site.world)) !! "F1_ZoneA_Cool_SP"
    = Some Sample.zoneA <->
  IRI2LABEL (snd (load_all Site.files Site.world)) !! Sample.zoneA
    = Some "F1_ZoneA_Cool_SP".
Proof.
  apply (load_all_label_maps_inverse Site.files Site.world).
  - apply (bool_decide_unpack _). vm_compute. exact I.
  - apply (bool_decide_unpack _). vm_compute. exact I.
Defined.

Lemma revocation_blocks_all_writes_witness :
  fst (monitor_window_end Sample.the_clock Site.monitor_cfg 6
         (map fst (map_to_list (STATE Site.world)))
         (map fst (map_to_list (APPS Site.world))) Site.world) = Return true /\
  exists e,
    fst (write Sample.the_clock Sample.show (Sample.req 22.5) Site.key
           (snd (monitor_window_end Sample.the_clock Site.monitor_cfg 6
                   (map fst (map_to_list (STATE Site.world)))
                   (map fst (map_to_list (APPS Site.world))) Site.world)))
    = Raise e.
Proof.
  destruct (revocation_blocks_all_writes Sample.the_clock
              Sample.show Site.monitor_cfg 6
              (map fst (map_to_list (STATE Site.world)))
              (map fst (map_to_list (APPS Site.world))) Site.world)
    as (Hret & _ & Hblock).
  - cbn. lia.
  - right. left. reflexivity.
  - split; [exact Hret|]. apply (Hblock (Sample.req 22.5) Site.key).
Defined.

Lemma remediation_resets_matching_points_witness :
  STATE (snd (monitor_window_end Sample.the_clock Site.monitor_cfg 6
                (map fst (map_to_list (STATE Site.world)))
                (map fst (map_to_list (APPS Site.world))) Site.world))
    !! "F1_ZoneA_Cool_SP" = Some 22%Q /\
  STATE (snd (monitor_window_end Sample.the_clock Site.monitor_cfg 6
                (map fst (map_to_list (STATE Site.world)))
                (map fst (map_to_list (APPS Site.world))) Site.world))
    !! "F1_ZoneA_Heat_SP" = Some 21%Q.
Proof.
  destruct (remediation_resets_matching_points Sample.the_clock Sample.render
              Sample.show Site.monitor_cfg 6
              (map fst (map_to_list (STATE Site.world)))
              (map fst (map_to_list (APPS Site.world))) Site.world)
    as (Hst & _).
  - cbn. lia.
  - apply keys_enumerate.
  - split; rewrite Hst; reflexivity.
Defined.

Lemma termination_empties_registry_witness :
  APPS (snd (monitor_window_end Sample.the_clock Site.monitor_cfg 6
               (map fst (map_to_list (STATE Site.world)))
               (map fst (map_to_list (APPS Site.world))) Site.world)) = ∅ /\
  APP_KEYS (snd (monitor_window_end Sample.the_clock Site.monitor_cfg 6
                   (map fst (map_to_list (STATE Site.world)))
                   (map fst (map_to_list (APPS Site.world))) Site.world)) = ∅.
Proof.
  destruct (termination_empties_registry Sample.the_clock Sample.render
              Sample.show Site.monitor_cfg 6
              (map fst (map_to_list (STATE Site.world)))
              (map fst (map_to_list (APPS Site.world))) Site.world)
    as (Ha & Hk & _).
  - cbn. lia.
  - exact sample_registry_ok.
  - apply keys_enumerate.
  - right. right. left. reflexivity.
  - split; assumption.
Defined.

Lemma energy_budget_upward_closed_witness :
  fst (v_energy_budget Site.world Sample.cooling "F1_ZoneA_Cool_SP" 21%Q None)
  = true.
Proof.
  apply (energy_budget_upward_closed Site.world Sample.cooling
           "F1_ZoneA_Cool_SP" 19%Q 21%Q None None).
  - vm_compute. discriminate.
  - vm_compute. discriminate.
  - vm_compute. reflexivity.
Defined.

Lemma token_bucket_keeps_bounds_witness :
  exists (ok : bool) (b' : Bucket) (w' : World),
    token_bucket_ok Sample.the_clock "comfort-1" Sample.inst Site.world
      = (Return ok, w') /\
    bucket_of w' "comfort-1" = Some b' /\ 0 <= tokens b' <= limit b'.
Proof.
  destruct (token_bucket_keeps_bounds Sample.the_clock "comfort-1" Sample.inst
              {| limit := 2; tokens := 0; win := 2 |} Site.world)
    as (ok & b' & w' & Hrun & Hb & _ & _ & Hbound & _).
  - reflexivity.
  - cbn. lia.
  - exists ok, b', w'. repeat split; try assumption; apply Hbound.
Defined.

Lemma repeated_promotion_duplicates_witness :
  get_validators_for_class
    (snd (admin_promote_shadow Sample.cooling
            (snd (admin_promote_shadow Sample.cooling Site.world))))
    Sample.cooling
  = ["range"; "rate"; "comfort_band"; "comfort_band"].
Proof.
  destruct (repeated_promotion_duplicates Sample.cooling Site.world)
    as (_ & _ & Hchain).
  - vm_compute. discriminate.
  - rewrite Hchain. vm_compute. reflexivity.
Defined.

Lemma reload_recomputes_capabilities_witness :
  exists w' : World,
    admin_reload Sample.render Site.files
                 (map fst (map_to_list (APPS Site.world))) Site.world
      = (Return true, w') /\
    APP_KEYS w' = APP_KEYS Site.world.
Proof.
  destruct (reload_recomputes_capabilities Sample.render Site.files
              (map fst (map_to_list (APPS Site.world))) Site.world)
    as (w' & Hrun & Hk & _).
  - apply keys_enumerate.
  - apply keys_enumerate.
  - intros a inst Hi. cbn in Hi. apply lookup_singleton_Some in Hi as [<- <-].
    eexists. vm_compute. reflexivity.
  - exists w'. split; assumption.
Defined.

Lemma remediation_clears_low_cooling_witness :
  monitor_sample 20
    (STATE (with_STATE (<["F1_ZoneA_Cool_SP" := 18%Q]> (STATE Site.world))
                       Site.world)) = 1 /\
  monitor_sample (cooling_min Site.monitor_cfg)
    (STATE (snd (monitor_window_end Sample.the_clock Site.monitor_cfg 6
                   (map fst (map_to_list
                      (<["F1_ZoneA_Cool_SP" := 18%Q]> (STATE Site.world))))
                   (map fst (map_to_list (APPS Site.world)))
                   (with_STATE (<["F1_ZoneA_Cool_SP" := 18%Q]> (STATE Site.world))
                               Site.world)))) = 0.
Proof.
  split; [vm_compute; reflexivity|].
  apply (remediation_clears_low_cooling Sample.the_clock Sample.render
           Sample.show Site.monitor_cfg 6).
  - vm_compute. discriminate.
  - apply keys_enumerate.
  - intros k Hk. unfold is_reset, Site.monitor_cfg. cbn [actions existsb].
    apply orb_true_iff. left. apply andb_true_iff.
    split; [reflexivity|exact Hk].
  - vm_compute. discriminate.
Defined.
